(** * Place verification and route sequencing: a shallow embedding

    The development follows five source files of the web application:
    - [lib/places-verification.js]: [calculateStringSimilarity],
      [calculateMatchConfidence], [findBestMatch], [verifyPlace],
      [verifyAllPlaces];
    - [lib/routes-optimization.js]: [optimizeRouteOrder] and its trip
      statistics, [generateOptimizedMapsUrl];
    - [lib/gemini.js]: [generateGoogleMapsUrl], [generatePlaces],
      [convertToGoogleRoutesFormat];
    - [app/api/generate-route/route.js]: [POST];
    - [app/page.tsx]: [generateIndividualPlaceUrl].

    Conventions of the embedding.
    - A JavaScript string is a [string]: a sequence of code units, here the
      code units below 256 (Basic Latin and Latin-1), on which
      [toLowerCase], the class [\s] and [encodeURIComponent] are written
      out exactly.
    - A JavaScript number that the code computes with is a rational [Q];
      rounding of IEEE doubles is not modelled.  [NaN] and [Infinity] are
      made explicit where a division can produce them.
    - [await fetch(...)] is replaced by its outcome, handed to the function
      as an argument; a [try]/[catch] is a match on a result type.
    - JavaScript arrays indexed by number are lists read with [!!]; the
      matrix of the edit distance, written cell by cell, is a finite map.
    - [JSON.parse], the printing of a number inside a template literal and
      the clock are parameters of the sections that use them.
    - The fields of a parsed object have the type the code expects of
      them: a string where it calls a string method, a list where it
      iterates. *)

From Stdlib Require Import Ascii String QArith Qminmax Lqa.
From stdpp Require Import gmap strings list pretty.

Local Open Scope string_scope.
Local Open Scope nat_scope.

(** ** Strings as JavaScript has them *)

Module JsString.

(** [String.prototype.toLowerCase] on one code unit below 256: [A]-[Z]
    and the Latin-1 capitals U+00C0 to U+00DE (U+00D7, the multiplication
    sign, apart) move up by 32. *)
Definition lowerChar (c : ascii) : ascii :=
  let n := nat_of_ascii c in
  if ((65 <=? n) && (n <=? 90))
     || ((192 <=? n) && (n <=? 222) && negb (n =? 215))
  then ascii_of_nat (n + 32)
  else c.

Fixpoint toLowerCase (s : string) : string :=
  match s with
  | EmptyString => EmptyString
  | String c s' => String (lowerChar c) (toLowerCase s')
  end.

(** [s.includes(t)]: [t] occurs in [s] at some position. *)
Fixpoint includes (s t : string) : bool :=
  String.prefix t s
  || match s with
     | EmptyString => false
     | String _ s' => includes s' t
     end.

(** [s.charAt(i)]: the one-unit string at [i], or the empty string. *)
Definition charAt (s : string) (i : nat) : string :=
  match String.get i s with
  | Some c => String c EmptyString
  | None => EmptyString
  end.

(** JavaScript truthiness of a string: non-empty. *)
Definition truthy (s : string) : bool := negb (String.eqb s "").

(** The class [[\s\(\)]] of the tokenizer, on code units below 256:
    tab, line feed, vertical tab, form feed, carriage return, space,
    no-break space, and the two parentheses. *)
Definition isSeparator (c : ascii) : bool :=
  let n := nat_of_ascii c in
  ((9 <=? n) && (n <=? 13)) || (n =? 32) || (n =? 160)
  || (n =? 40) || (n =? 41).

(** [s.split(/[\s\(\)]+/)]: the pieces between maximal runs of
    separators; a leading or trailing run leaves an empty piece, and the
    empty string splits into one empty piece.  [inRun] records that the
    previous unit was a separator, [cur] is the piece being read. *)
Fixpoint splitFrom (inRun : bool) (cur : string) (s : string)
  : list string :=
  match s with
  | EmptyString => [cur]
  | String c s' =>
      if isSeparator c
      then (if inRun then splitFrom true cur s'
            else cur :: splitFrom true "" s')
      else splitFrom false (cur +:+ String c "") s'
  end.

Definition split (s : string) : list string := splitFrom false "" s.

End JsString.

Import JsString.

(** ** Numbers *)

Definition Qnat (n : nat) : Q := inject_Z (Z.of_nat n).

(** A [for (i = lo; i < lo + n; i++)] loop over a state. *)
Definition forLoop {St : Type} (lo n : nat) (body : nat -> St -> St)
  (s : St) : St :=
  fold_left (fun acc i => body i acc) (seq lo n) s.

(** ** [calculateStringSimilarity] *)

Module StringSimilarity.

(** [matrix] is an array of rows, each an array of numbers. *)
Abbreviation Matrix := (gmap nat (gmap nat nat)).

(** [matrix[i][j]] read as a number. *)
Definition cell (m : Matrix) (i j : nat) : option nat :=
  m !! i ≫= (.!! j).

Definition cellOr0 (m : Matrix) (i j : nat) : nat :=
  default 0 (cell m i j).

(** [matrix[i][j] = v]. *)
Definition setCell (m : Matrix) (i j v : nat) : Matrix :=
  <[i := <[j := v]> (default ∅ (m !! i))]> m.

Definition min3 (a b c : nat) : nat := Nat.min a (Nat.min b c).

(** [for (i = 0; i <= str2.length; i++) matrix[i] = [i];] *)
Definition initRows (len2 : nat) (m : Matrix) : Matrix :=
  forLoop 0 (S len2) (fun i m => <[i := {[0 := i]}]> m) m.

(** [for (j = 0; j <= str1.length; j++) matrix[0][j] = j;] *)
Definition initFirstRow (len1 : nat) (m : Matrix) : Matrix :=
  forLoop 0 (S len1) (fun j m => setCell m 0 j j) m.

(** The body of the inner loop. *)
Definition fillCell (str1 str2 : string) (i j : nat) (m : Matrix)
  : Matrix :=
  if String.eqb (charAt str2 (i - 1)) (charAt str1 (j - 1))
  then setCell m i j (cellOr0 m (i - 1) (j - 1))
  else setCell m i j
         (min3 (cellOr0 m (i - 1) (j - 1) + 1)   (* substitution *)
               (cellOr0 m i (j - 1) + 1)         (* insertion *)
               (cellOr0 m (i - 1) j + 1)).       (* deletion *)

Definition fillMatrix (str1 str2 : string) (m : Matrix) : Matrix :=
  forLoop 1 (String.length str2)
    (fun i m => forLoop 1 (String.length str1) (fillCell str1 str2 i) m)
    m.

Definition distanceMatrix (str1 str2 : string) : Matrix :=
  fillMatrix str1 str2
    (initFirstRow (String.length str1)
       (initRows (String.length str2) ∅)).

Definition calculateStringSimilarity (str1 str2 : string) : Q :=
  if String.eqb str1 str2 then 1%Q
  else if (String.length str1 =? 0) || (String.length str2 =? 0) then 0%Q
  else
    let matrix := distanceMatrix str1 str2 in
    let maxLength := Nat.max (String.length str1) (String.length str2) in
    let distance :=
      cellOr0 matrix (String.length str2) (String.length str1) in
    (1 - Qnat distance / Qnat maxLength)%Q.

End StringSimilarity.

Import StringSimilarity.

(** ** Edit distance as the specification words it

    The classic unit-cost Levenshtein distance between the first [i] units
    of [a] and the first [j] units of [b]: turning a prefix into the empty
    string deletes every unit, and otherwise the cheapest of a deletion, an
    insertion and a substitution (free when the two last units agree). *)

Module Levenshtein.

Definition substitutionCost (a b : string) (i j : nat) : nat :=
  if String.eqb (charAt a i) (charAt b j) then 0 else 1.

Fixpoint lev (a b : string) (i : nat) {struct i} : nat -> nat :=
  match i with
  | 0 => fun j => j
  | S i' =>
      fix row (j : nat) : nat :=
        match j with
        | 0 => S i'
        | S j' =>
            Nat.min (lev a b i' (S j') + 1)
              (Nat.min (row j' + 1)
                 (lev a b i' j' + substitutionCost a b i' j'))
        end
  end.

Definition editDistance (a b : string) : nat :=
  lev a b (String.length a) (String.length b).

End Levenshtein.

Import Levenshtein.

(** ** Exceptions

    A function that can raise returns a [Result]; [Throw] carries the
    message of the error object. *)

Inductive Result (A : Type) : Type :=
| Ok (value : A)
| Throw (message : string).
Arguments Ok {A} value.
Arguments Throw {A} message.

#[export] Instance Result_ret : MRet Result := fun A x => Ok x.
#[export] Instance Result_bind : MBind Result := fun A B f r =>
  match r with
  | Ok x => f x
  | Throw msg => Throw msg
  end.

(** [for (const x of xs) { acc = body(acc, x) }] where the body can raise:
    the first exception ends the loop. *)
Fixpoint forOf {A S : Type} (body : S -> A -> Result S) (xs : list A)
  (acc : S) : Result S :=
  match xs with
  | [] => Ok acc
  | x :: xs' =>
      match body acc x with
      | Ok acc' => forOf body xs' acc'
      | Throw msg => Throw msg
      end
  end.

(** Comparisons of numbers. *)
Definition Qgt_bool (a b : Q) : bool := negb (Qle_bool a b).
Definition Qge_bool (a b : Q) : bool := Qle_bool b a.

(** ** The records of the place search *)

(** [displayName] of a search record: missing, a plain string, or the
    localized-text object [{text, languageCode}], whose [text] can itself
    be missing. *)
Inductive DisplayName : Type :=
| NameAbsent
| NamePlain (s : string)
| NameLocalized (text : option string).

Record LatLng : Type := {
  latitude : option Q;
  longitude : option Q;
}.

Record ApiPlace : Type := {
  id : option string;
  displayName : DisplayName;
  formattedAddress : option string;
  location : option LatLng;
  rating : option Q;
  userRatingCount : option Q;
  businessStatus : option string;
  types : option (list string);
  photos : option (list string);
}.

(** A place as the language model proposes it. *)
Record LlmPlace : Type := {
  name : string;
  type : option string;
  description : option string;
  reasoning : option string;
}.

(** ** [calculateMatchConfidence] *)

Module ConfidenceScorer.

(** The value of [apiPlace.displayName?.text || apiPlace.displayName]:
    the text when it is a non-empty string, else [displayName] itself. *)
Definition textOrDisplayName (d : DisplayName) : DisplayName :=
  match d with
  | NameLocalized (Some t) => if truthy t then NamePlain t else d
  | _ => d
  end.

Definition notAFunction : string :=
  "(intermediate value).toLowerCase is not a function".

(** [(apiPlace.displayName?.text || apiPlace.displayName || '')
    .toLowerCase()]: an object that survives the two [||] has no
    [toLowerCase], and the call raises a [TypeError]. *)
Definition apiNameOf (apiPlace : ApiPlace) : Result string :=
  match textOrDisplayName (displayName apiPlace) with
  | NameAbsent => Ok (toLowerCase "")
  | NamePlain s => Ok (toLowerCase (if truthy s then s else ""))
  | NameLocalized _ => Throw notAFunction
  end.

(** [name.split(/[\s\(\)]+/).filter((w) => w.length > 2)] *)
Definition words (s : string) : list string :=
  List.filter (fun w => 2 <? String.length w) (split s).

(** The predicate handed to [apiWords.some]. *)
Definition wordMatchesApiWord (word apiWord : string) : bool :=
  includes word apiWord
  || includes apiWord word
  || Qgt_bool (calculateStringSimilarity word apiWord) 0.8.

(** The counting loop over [nameWords]. *)
Definition countWordMatches (nameWords apiWords : list string) : nat :=
  fold_left
    (fun wordMatches word =>
       if existsb (wordMatchesApiWord word) apiWords
       then wordMatches + 1
       else wordMatches)
    nameWords 0.

(** The name block, lines 154 to 193 of the source: what [confidence]
    is after it, from what it was before. *)
Definition addNameScore (originalName apiName : string) (confidence : Q)
  : Q :=
  if String.eqb originalName apiName then (confidence + 0.6)%Q
  else
    let containsMatch :=
      includes originalName apiName || includes apiName originalName in
    let confidence :=
      if containsMatch then (confidence + 0.5)%Q
      else
        let nameSimilarity :=
          calculateStringSimilarity originalName apiName in
        (confidence + nameSimilarity * 0.6)%Q in
    let nameWords := words originalName in
    let apiWords := words apiName in
    let wordMatches := countWordMatches nameWords apiWords in
    if 0 <? length nameWords
    then
      let wordMatchRatio := (Qnat wordMatches / Qnat (length nameWords))%Q in
      (confidence + wordMatchRatio * 0.15)%Q
    else confidence.

(** The address block. *)
Definition addAddressScore (apiPlace : ApiPlace) (city : string)
  (confidence : Q) : Q :=
  let apiAddress := default "" (formattedAddress apiPlace) in
  let cityInAddress :=
    includes (toLowerCase apiAddress) (toLowerCase city) in
  if cityInAddress then (confidence + 0.3)%Q
  else
    let countryMatch :=
      includes (toLowerCase apiAddress) "portugal"
      || includes (toLowerCase apiAddress) "lisboa"
      || includes (toLowerCase apiAddress) "lisbon" in
    if countryMatch then (confidence + 0.15)%Q else confidence.

(** The business-status block. *)
Definition addStatusScore (apiPlace : ApiPlace) (confidence : Q) : Q :=
  match businessStatus apiPlace with
  | Some status =>
      if String.eqb status "OPERATIONAL" then (confidence + 0.05)%Q
      else if String.eqb status "CLOSED_TEMPORARILY"
           then (confidence + 0.025)%Q
           else confidence
  | None => confidence
  end.

(** [x && x >= bound] for an optional number [x]. *)
Definition atLeast (x : option Q) (bound : Q) : bool :=
  match x with
  | Some v => negb (Qeq_bool v 0) && Qge_bool v bound
  | None => false
  end.

(** The two quality bonuses. *)
Definition addQualityScore (apiPlace : ApiPlace) (confidence : Q) : Q :=
  let confidence :=
    if atLeast (rating apiPlace) 4 then (confidence + 0.03)%Q
    else confidence in
  if atLeast (userRatingCount apiPlace) 1000 then (confidence + 0.02)%Q
  else confidence.

Definition calculateMatchConfidence (originalPlace : LlmPlace)
  (apiPlace : ApiPlace) (city : string) : Result Q :=
  let confidence := 0%Q in
  let originalName := toLowerCase (name originalPlace) in
  apiName ← apiNameOf apiPlace;
  let confidence := addNameScore originalName apiName confidence in
  let confidence := addAddressScore apiPlace city confidence in
  let confidence := addStatusScore apiPlace confidence in
  let confidence := addQualityScore apiPlace confidence in
  Ok (Qmin confidence 1).

End ConfidenceScorer.

Import ConfidenceScorer.

(** ** [findBestMatch] *)

Record Location : Type := {
  lat : option Q;
  lng : option Q;
}.

(** The object [findBestMatch] builds for the candidate it keeps. *)
Module VerifiedPlace.
Record t : Type := {
  id : option string;
  name : DisplayName;
  address : option string;
  location : Location;
  rating : option Q;
  userRatingCount : option Q;
  businessStatus : option string;
  types : list string;
  place_id : option string;
  photos : list string;
}.
End VerifiedPlace.

Module BestMatch.
Record t : Type := {
  place : option VerifiedPlace.t;
  confidence : Q;
}.
End BestMatch.

Module CandidateResolver.

Definition toVerifiedPlace (apiPlace : ApiPlace) : VerifiedPlace.t :=
  {| VerifiedPlace.id := id apiPlace;
     VerifiedPlace.name := textOrDisplayName (displayName apiPlace);
     VerifiedPlace.address := formattedAddress apiPlace;
     VerifiedPlace.location :=
       {| lat := location apiPlace ≫= latitude;
          lng := location apiPlace ≫= longitude |};
     VerifiedPlace.rating := rating apiPlace;
     VerifiedPlace.userRatingCount := userRatingCount apiPlace;
     VerifiedPlace.businessStatus := businessStatus apiPlace;
     VerifiedPlace.types := default [] (types apiPlace);
     VerifiedPlace.place_id := id apiPlace;
     VerifiedPlace.photos := default [] (photos apiPlace) |}.

Definition initialBestMatch : BestMatch.t :=
  {| BestMatch.place := None; BestMatch.confidence := 0%Q |}.

(** The body of the loop over [apiResults]. *)
Definition considerCandidate (originalPlace : LlmPlace) (city : string)
  (bestMatch : BestMatch.t) (apiPlace : ApiPlace) : Result BestMatch.t :=
  confidence ← calculateMatchConfidence originalPlace apiPlace city;
  if Qgt_bool confidence (BestMatch.confidence bestMatch)
  then Ok {| BestMatch.place := Some (toVerifiedPlace apiPlace);
             BestMatch.confidence := confidence |}
  else Ok bestMatch.

Definition findBestMatch (originalPlace : LlmPlace)
  (apiResults : list ApiPlace) (city : string) : Result BestMatch.t :=
  forOf (considerCandidate originalPlace city) apiResults initialBestMatch.

End CandidateResolver.

Import CandidateResolver.

(** ** [verifyPlace] and [verifyAllPlaces] *)

(** What the search request of one mention comes back with: an exception
    (the network, or a body that is not JSON), a response whose [ok] is
    false, or a parsed body whose [places] can be missing. *)
Inductive SearchResponse : Type :=
| SearchThrown (message : string)
| SearchHttpError (status : nat) (errorText : string)
| SearchHttpOk (places : option (list ApiPlace)).

Module VerificationResult.
Record t : Type := {
  verified : bool;
  error : option string;
  originalPlace : LlmPlace;
  confidence : Q;
  verifiedPlace : option VerifiedPlace.t;
  alternativeMatches : option (list ApiPlace);
}.
End VerificationResult.

(** A number that a division produced. *)
Inductive JsNumber : Type :=
| Finite (q : Q)
| Infinity
| NaN.

(** [a / b] on two array lengths. *)
Definition divideCounts (a b : nat) : JsNumber :=
  if b =? 0 then (if a =? 0 then NaN else Infinity)
  else Finite (Qnat a / Qnat b).

(** [x * k] for a finite positive [k]. *)
Definition timesPositive (x : JsNumber) (k : Q) : JsNumber :=
  match x with
  | Finite q => Finite (q * k)
  | Infinity => Infinity
  | NaN => NaN
  end.

Record Summary : Type := {
  totalPlaces : nat;
  verifiedPlaces : nat;
  verificationRate : JsNumber;
  unverifiedPlaces : Z;
}.

Record Verification : Type := {
  verification_verified : bool;
  verification_confidence : Q;
  verification_error : option string;
  verifiedData : option VerifiedPlace.t;
  alternatives : option (list ApiPlace);
}.

(** One entry of [enhancedPlaces]; the stops of a route are such
    entries. *)
Module EnhancedPlace.
Record t : Type := {
  name : string;
  type : option string;
  description : option string;
  reasoning : option string;
  address : option string;
  location : option Location;
  place_id : option string;
  rating : option Q;
  userRatingCount : option Q;
  businessStatus : option string;
  types : list string;
  photos : list string;
  verification : option Verification;
}.
End EnhancedPlace.

Record RouteResponse : Type := {
  places : option (list LlmPlace);
  city : string;
}.

Inductive BatchResult : Type :=
| BatchFailure (error : string)
| BatchSuccess (verificationResults : list VerificationResult.t)
    (summary : Summary) (enhancedPlaces : list EnhancedPlace.t).

Module VerificationOrchestrator.

Definition failure (place : LlmPlace) (reason : string)
  : VerificationResult.t :=
  {| VerificationResult.verified := false;
     VerificationResult.error := Some reason;
     VerificationResult.originalPlace := place;
     VerificationResult.confidence := 0%Q;
     VerificationResult.verifiedPlace := None;
     VerificationResult.alternativeMatches := None |}.

(** [x || null] for an optional string and an optional number. *)
Definition stringOrNull (x : option string) : option string :=
  match x with
  | Some s => if truthy s then Some s else None
  | None => None
  end.

Definition numberOrNull (x : option Q) : option Q :=
  match x with
  | Some v => if Qeq_bool v 0 then None else Some v
  | None => None
  end.

(** [verifyPlace], given the outcome of its one search request. *)
Definition verifyPlace (place : LlmPlace) (city : string)
  (response : SearchResponse) : VerificationResult.t :=
  match response with
  | SearchThrown message => failure place message
  | SearchHttpError status errorText =>
      failure place
        ("API Error: " +:+ pretty status +:+ " - " +:+ errorText)
  | SearchHttpOk None | SearchHttpOk (Some []) =>
      failure place "No matching places found"
  | SearchHttpOk (Some results) =>
      match findBestMatch place results city with
      | Throw message => failure place message
      | Ok bestMatch =>
          let isVerified :=
            Qgt_bool (BestMatch.confidence bestMatch) 0.3 in
          {| VerificationResult.verified := isVerified;
             VerificationResult.error := None;
             VerificationResult.originalPlace := place;
             VerificationResult.confidence :=
               BestMatch.confidence bestMatch;
             VerificationResult.verifiedPlace :=
               BestMatch.place bestMatch;
             VerificationResult.alternativeMatches :=
               Some (take 3 results) |}
      end
  end.

Definition enhance (result : VerificationResult.t) : EnhancedPlace.t :=
  let original := VerificationResult.originalPlace result in
  let vp := VerificationResult.verifiedPlace result in
  {| EnhancedPlace.name := name original;
     EnhancedPlace.type := type original;
     EnhancedPlace.description := description original;
     EnhancedPlace.reasoning := reasoning original;
     EnhancedPlace.address :=
       Some (default "Address not found"
               (stringOrNull (vp ≫= VerifiedPlace.address)));
     EnhancedPlace.location := VerifiedPlace.location <$> vp;
     EnhancedPlace.place_id := stringOrNull (vp ≫= VerifiedPlace.place_id);
     EnhancedPlace.rating := numberOrNull (vp ≫= VerifiedPlace.rating);
     EnhancedPlace.userRatingCount :=
       numberOrNull (vp ≫= VerifiedPlace.userRatingCount);
     EnhancedPlace.businessStatus :=
       stringOrNull (vp ≫= VerifiedPlace.businessStatus);
     EnhancedPlace.types := default [] (VerifiedPlace.types <$> vp);
     EnhancedPlace.photos := default [] (VerifiedPlace.photos <$> vp);
     EnhancedPlace.verification :=
       Some {| verification_verified := VerificationResult.verified result;
               verification_confidence :=
                 VerificationResult.confidence result;
               verification_error := VerificationResult.error result;
               verifiedData := vp;
               alternatives :=
                 VerificationResult.alternativeMatches result |} |}.

Definition summarize (verificationResults : list VerificationResult.t)
  : Summary :=
  let verifiedCount :=
    length (List.filter VerificationResult.verified verificationResults) in
  let totalCount := length verificationResults in
  {| totalPlaces := totalCount;
     verifiedPlaces := verifiedCount;
     verificationRate :=
       timesPositive (divideCounts verifiedCount totalCount) 100;
     unverifiedPlaces := (Z.of_nat totalCount - Z.of_nat verifiedCount)%Z |}.

(** [verifyAllPlaces]: [search i] is what the request of the mention at
    position [i] comes back with.  Every [verifyPlace] promise resolves,
    on each of its paths, so [Promise.all] resolves with the results in
    the order of the mentions and its [catch] is never entered. *)
Definition verifyAllPlaces (routeResponse : RouteResponse)
  (search : nat -> SearchResponse) : BatchResult :=
  match places routeResponse with
  | None => BatchFailure "Invalid route response format"
  | Some mentions =>
      let verificationResults :=
        imap (fun i place =>
                verifyPlace place (city routeResponse) (search i))
          mentions in
      BatchSuccess verificationResults (summarize verificationResults)
        (map enhance verificationResults)
  end.

End VerificationOrchestrator.

Import VerificationOrchestrator.

(** ** [optimizeRouteOrder] *)

Abbreviation Stop := EnhancedPlace.t.

(** The first route of the routing service's answer.  The duration and
    distance only feed the trip statistics, which [TripStatistics] models
    apart. *)
Record Route : Type := {
  optimizedIntermediateWaypointIndex : option (list nat);
  duration : option string;
  distanceMeters : option Q;
}.

Inductive RoutesResponse : Type :=
| RoutesThrown (message : string)
| RoutesHttpError (status : nat) (errorText : string)
| RoutesHttpOk (routes : option (list Route)).

(** The object [optimizeRouteOrder] returns; [success] is [true] on every
    path.  An optimized list holds [placesWithIds[0]], then
    [intermediates[index]] for each index of the answer, then the last of
    [placesWithIds]; an array read out of range is [undefined] ([None]). *)
Inductive OptimizeResult : Type :=
| Unoptimized (places : list Stop) (error : option string)
    (message : string)
| Optimized (places : list (option Stop)) (optimizedOrder : list nat).

Module WaypointSequencer.

Definition optimized (r : OptimizeResult) : bool :=
  match r with
  | Unoptimized _ _ _ => false
  | Optimized _ _ => true
  end.

Definition resultPlaces (r : OptimizeResult) : list (option Stop) :=
  match r with
  | Unoptimized places _ _ => Some <$> places
  | Optimized places _ => places
  end.

(** [place.place_id] as a condition. *)
Definition hasPlaceId (place : Stop) : bool :=
  match EnhancedPlace.place_id place with
  | Some i => truthy i
  | None => false
  end.

(** [xs.slice(1, -1)] *)
Definition sliceInner {A : Type} (xs : list A) : list A :=
  drop 1 (take (length xs - 1) xs).

(** [optimizeRouteOrder], given what the one routing request comes back
    with; the request is only made on the path that reads [response]. *)
Definition optimizeRouteOrder (places : list Stop) (travelMode : string)
  (response : RoutesResponse) : OptimizeResult :=
  let originalOrder (error : string) :=
    Unoptimized places (Some error)
      "Optimization failed, using original order" in
  if length places <? 2
  then originalOrder "At least 2 places are required for route optimization"
  else
    let placesWithIds := List.filter hasPlaceId places in
    if length placesWithIds <? 2
    then Unoptimized places None "Insufficient place IDs for optimization"
    else if length placesWithIds =? 2
    then Unoptimized placesWithIds None
           "Only 2 places, no optimization needed"
    else
      let origin := placesWithIds !! 0 in
      let destination := placesWithIds !! (length placesWithIds - 1) in
      let intermediates := sliceInner placesWithIds in
      match response with
      | RoutesThrown message => originalOrder message
      | RoutesHttpError status errorText =>
          Unoptimized placesWithIds
            (Some ("Routes API error: " +:+ pretty status +:+ " - "
                   +:+ errorText))
            "Optimization failed, using original order"
      | RoutesHttpOk None | RoutesHttpOk (Some []) =>
          Unoptimized placesWithIds (Some "No routes returned from API")
            "Optimization failed, using original order"
      | RoutesHttpOk (Some (route :: _)) =>
          match optimizedIntermediateWaypointIndex route with
          | None =>
              Unoptimized placesWithIds None
                "No optimization performed by API"
          | Some optimizedOrder =>
              let reorderedIntermediates :=
                map (fun index => intermediates !! index) optimizedOrder in
              Optimized
                (origin :: reorderedIntermediates ++ [destination])
                optimizedOrder
          end
      end.

End WaypointSequencer.

Import WaypointSequencer.

(** ** The two link generators *)

Module MapsUrl.

Definition hexDigit (n : nat) : string :=
  String.substring n 1 "0123456789ABCDEF".

Definition percent (byte : nat) : string :=
  "%" +:+ hexDigit (byte / 16) +:+ hexDigit (byte mod 16).

(** The units [encodeURIComponent] leaves alone: letters, digits and
    [- _ . ! ~ * ' ( )]. *)
Definition unreserved (c : ascii) : bool :=
  let n := nat_of_ascii c in
  ((65 <=? n) && (n <=? 90)) || ((97 <=? n) && (n <=? 122))
  || ((48 <=? n) && (n <=? 57))
  || existsb (Nat.eqb n) [45; 95; 46; 33; 126; 42; 39; 40; 41].

(** One code unit below 256, percent-encoded through UTF-8.  No such
    unit is a surrogate, so on the strings of this model
    [encodeURIComponent] never raises its [URIError]. *)
Definition encodeUnit (c : ascii) : string :=
  let n := nat_of_ascii c in
  if unreserved c then String c ""
  else if n <? 128 then percent n
  else percent (192 + n / 64) +:+ percent (128 + n mod 64).

Fixpoint encodeURIComponent (s : string) : string :=
  match s with
  | EmptyString => EmptyString
  | String c s' => encodeUnit c +:+ encodeURIComponent s'
  end.

(** [s.replace(/c/g, by)] for a one-unit pattern. *)
Fixpoint replaceAll (c : ascii) (by_ : string) (s : string) : string :=
  match s with
  | EmptyString => EmptyString
  | String d s' =>
      (if Ascii.eqb d c then by_ else String d "") +:+ replaceAll c by_ s'
  end.

Definition urlEncode (str : string) : string :=
  replaceAll "*" "%2A"
    (replaceAll ")" "%29"
       (replaceAll "(" "%28"
          (replaceAll "'" "%27" (encodeURIComponent str)))).

(** The own properties of [modeMap]. *)
Definition modeMap : gmap string string :=
  list_to_map
    [("WALK", "walking"); ("walking", "walking");
     ("DRIVE", "driving"); ("driving", "driving");
     ("TRANSIT", "transit"); ("transit", "transit");
     ("BICYCLE", "bicycling"); ("bicycling", "bicycling")].

(** What a native function prints as inside a template literal. *)
Definition nativeFunction (functionName : string) : string :=
  "function " +:+ functionName +:+ "() { [native code] }".

(** The properties [modeMap], an object literal, inherits from
    [Object.prototype], each with what a template literal prints for it:
    a native function, and for [__proto__] the prototype object. *)
Definition inheritedProperties : gmap string string :=
  list_to_map
    [("constructor", nativeFunction "Object");
     ("__defineGetter__", nativeFunction "__defineGetter__");
     ("__defineSetter__", nativeFunction "__defineSetter__");
     ("hasOwnProperty", nativeFunction "hasOwnProperty");
     ("__lookupGetter__", nativeFunction "__lookupGetter__");
     ("__lookupSetter__", nativeFunction "__lookupSetter__");
     ("isPrototypeOf", nativeFunction "isPrototypeOf");
     ("propertyIsEnumerable", nativeFunction "propertyIsEnumerable");
     ("toString", nativeFunction "toString");
     ("valueOf", nativeFunction "valueOf");
     ("__proto__", "[object Object]");
     ("toLocaleString", nativeFunction "toLocaleString")].

(** [modeMap[travelMode] || 'walking'], as the link prints it: an own
    property, else an inherited one (each of them is truthy), else
    [walking]. *)
Definition modeOf (travelMode : string) : string :=
  match modeMap !! travelMode with
  | Some mode => mode
  | None => default "walking" (inheritedProperties !! travelMode)
  end.

(** [parts.join(sep)] *)
Fixpoint join (sep : string) (parts : list string) : string :=
  match parts with
  | [] => ""
  | [p] => p
  | p :: rest => p +:+ sep +:+ join sep rest
  end.

(** The tracking parameters that end a link. *)
Definition optimizedUtm : string :=
  "&utm_source=ai_travel_planner&utm_campaign=optimized_walking_route".

Definition standardUtm : string :=
  "&utm_source=ai_travel_planner&utm_campaign=walking_route_generation".

Section Generators.

(** The conversion of a number to a string inside a template literal,
    a primitive of the language. *)
Variable numberToString : Q -> string.

Definition show (x : option Q) : string :=
  match x with
  | Some v => numberToString v
  | None => "undefined"
  end.

Definition showLocation (l : Location) : string :=
  show (lat l) +:+ "%2C" +:+ show (lng l).

(** [place.address] as a condition. *)
Definition addressOf (place : Stop) : option string :=
  match EnhancedPlace.address place with
  | Some a => if truthy a then Some a else None
  | None => None
  end.

(** What the [if (place.address) ... else if (place.location) ...] of
    the origin and of the destination appends to the link. *)
Definition endpointParam (key : string) (place : Stop) : string :=
  match addressOf place, EnhancedPlace.location place with
  | Some a, _ => "&" +:+ key +:+ "=" +:+ urlEncode a
  | None, Some l => "&" +:+ key +:+ "=" +:+ showLocation l
  | None, None => ""
  end.

(** The callback of [waypoints.map]. *)
Definition waypointString (place : Stop) : string :=
  match addressOf place, EnhancedPlace.location place with
  | Some a, _ => urlEncode a
  | None, Some l => showLocation l
  | None, None => ""
  end.

Definition waypointsParam (places : list Stop) : string :=
  if 2 <? length places
  then
    let waypoints := sliceInner places in
    let waypointStrings :=
      List.filter truthy (map waypointString waypoints) in
    if 0 <? length waypointStrings
    then "&waypoints=" +:+ join "%7C" waypointStrings
    else ""
  else "".

(** [ids.filter((id) => id !== null && id !== undefined)] *)
Definition definedIds (places : list Stop) : list string :=
  omap EnhancedPlace.place_id places.

Definition placeIdParam (key : string) (place : Stop) : string :=
  if hasPlaceId place
  then "&" +:+ key +:+ "="
       +:+ default "" (EnhancedPlace.place_id place)
  else "".

Definition placeIdsParam (first last : Stop) (places : list Stop)
  : string :=
  if 0 <? length (definedIds places)
  then
    placeIdParam "origin_place_id" first
    +:+ placeIdParam "destination_place_id" last
    +:+ (if 2 <? length places
         then
           let waypointPlaceIds := definedIds (sliceInner places) in
           if 0 <? length waypointPlaceIds
           then "&waypoint_place_ids=" +:+ join "%7C" waypointPlaceIds
           else ""
         else "")
  else "".

Definition baseUrl : string := "https://www.google.com/maps/dir/?api=1".

(** The link with every parameter, as it stands before the length
    check. *)
Definition assembledUrl (utm googleTravelMode : string)
  (origin destination : Stop) (places : list Stop) : string :=
  let url := baseUrl +:+ "&travelmode=" +:+ googleTravelMode in
  let url := url +:+ endpointParam "origin" origin in
  let url := url +:+ endpointParam "destination" destination in
  let url := url +:+ waypointsParam places in
  let url := url +:+ placeIdsParam origin destination places in
  url +:+ utm.

(** The fallback link, with the origin and the destination only. *)
Definition simplifiedUrl (utm googleTravelMode : string)
  (origin destination : Stop) : string :=
  let simpleUrl := baseUrl +:+ "&travelmode=" +:+ googleTravelMode in
  let simpleUrl := simpleUrl +:+ endpointParam "origin" origin in
  let simpleUrl :=
    simpleUrl +:+ endpointParam "destination" destination in
  simpleUrl +:+ utm.

(** The body the two generators share; they differ in [utm] only. *)
Definition mapsUrl (utm : string) (places : list Stop)
  (travelMode : string) : option string :=
  match places with
  | [] => None
  | origin :: _ =>
      let destination := List.last places origin in
      let googleTravelMode := modeOf travelMode in
      let url :=
        assembledUrl utm googleTravelMode origin destination places in
      if 2048 <? String.length url
      then Some (simplifiedUrl utm googleTravelMode origin destination)
      else Some url
  end.

(** [generateOptimizedMapsUrl] of [lib/routes-optimization.js]. *)
Definition generateOptimizedMapsUrl (optimizedPlaces : list Stop)
  (travelMode : string) : option string :=
  mapsUrl optimizedUtm optimizedPlaces travelMode.

(** [generateGoogleMapsUrl] of [lib/gemini.js]. *)
Definition generateGoogleMapsUrl (places : list Stop)
  (travelMode : string) : option string :=
  mapsUrl standardUtm places travelMode.

End Generators.

End MapsUrl.

Import MapsUrl.

(** * The rest of the pipeline *)

(** ** More string primitives *)

Module JsText.

(** White space and line terminators, as [trim], [parseInt] and [\s] see
    them, on code units below 256. *)
Definition isWhiteSpace (c : ascii) : bool :=
  let n := nat_of_ascii c in
  ((9 <=? n) && (n <=? 13)) || (n =? 32) || (n =? 160).

Fixpoint trimStart (s : string) : string :=
  match s with
  | EmptyString => EmptyString
  | String c s' => if isWhiteSpace c then trimStart s' else s
  end.

Fixpoint trimEnd (s : string) : string :=
  match s with
  | EmptyString => EmptyString
  | String c s' =>
      match trimEnd s' with
      | EmptyString => if isWhiteSpace c then EmptyString else String c ""
      | rest => String c rest
      end
  end.

Definition trim (s : string) : string := trimEnd (trimStart s).

(** [s.startsWith(p)] *)
Definition startsWith (s p : string) : bool := String.prefix p s.

(** [s] without its first [n] units. *)
Fixpoint dropUnits (n : nat) (s : string) : string :=
  match n, s with
  | 0, _ => s
  | S n', String _ s' => dropUnits n' s'
  | S _, EmptyString => EmptyString
  end.

(** What is left of [s] once the suffix [p] is taken off its end; [None]
    when [s] does not end in [p]. *)
Fixpoint withoutSuffix (p s : string) : option string :=
  if String.eqb s p then Some EmptyString
  else
    match s with
    | EmptyString => None
    | String c s' => String c <$> withoutSuffix p s'
    end.

(** [s.endsWith(p)] *)
Definition endsWith (s p : string) : bool :=
  bool_decide (is_Some (withoutSuffix p s)).

(** [s.replace(c, '')] for a one-unit string [c]: the first occurrence
    goes. *)
Fixpoint removeFirst (c : ascii) (s : string) : string :=
  match s with
  | EmptyString => EmptyString
  | String d s' => if Ascii.eqb d c then s' else String d (removeFirst c s')
  end.

(** The value of a digit in [radix], as [parseInt] reads it. *)
Definition digitValue (radix : nat) (c : ascii) : option nat :=
  let n := nat_of_ascii c in
  let v :=
    if (48 <=? n) && (n <=? 57) then Some (n - 48)
    else if (97 <=? n) && (n <=? 122) then Some (n - 87)
    else if (65 <=? n) && (n <=? 90) then Some (n - 55)
    else None in
  match v with
  | Some d => if d <? radix then Some d else None
  | None => None
  end.

(** The digits read from the front of [s], after the value [acc] of the
    digits before them. *)
Fixpoint parseDigits (radix : nat) (acc : Z) (s : string) : Z :=
  match s with
  | EmptyString => acc
  | String c s' =>
      match digitValue radix c with
      | Some d => parseDigits radix (acc * Z.of_nat radix + Z.of_nat d) s'
      | None => acc
      end
  end.

(** The result of [parseInt]: an integer, or [NaN]. *)
Inductive ParsedInt : Type :=
| NotANumber
| Integer (z : Z).

(** The sign of a numeral and what follows it. *)
Definition readSign (s : string) : Z * string :=
  match s with
  | String "-" rest => ((-1)%Z, rest)
  | String "+" rest => (1%Z, rest)
  | _ => (1%Z, s)
  end.

(** [parseInt(s)], with no radix given: white space, a sign and a
    prefix [0x] or [0X] are skipped, and the digits that follow are read;
    without a digit the result is [NaN].  The integer is exact: the
    rounding of a double sets in above 2^53 only. *)
Definition parseInt (s : string) : ParsedInt :=
  let (sign, body) := readSign (trimStart s) in
  let (radix, digits) :=
    if startsWith body "0x" || startsWith body "0X"
    then (16, dropUnits 2 body)
    else (10, body) in
  match digits with
  | EmptyString => NotANumber
  | String c _ =>
      match digitValue radix c with
      | Some _ => Integer (sign * parseDigits radix 0 digits)
      | None => NotANumber
      end
  end.

(** [Math.round(x / 60)] for an integer [x]: the nearest integer, a half
    going up. *)
Definition roundedMinutes (seconds : Z) : Z := ((seconds + 30) `div` 60)%Z.

End JsText.

Import JsText.

(** ** The trip statistics of [optimizeRouteOrder] *)

Module Optimization.
Record t : Type := {
  originalOrder : list nat;
  optimizedOrder : list nat;
  totalDuration : option ParsedInt;
  totalDistance : option Q;
  estimatedWalkingTime : option string;
}.
End Optimization.

Module TripStatistics.

(** [route.duration ? parseInt(route.duration.replace('s', '')) : null] *)
Definition totalDurationOf (route : Route) : option ParsedInt :=
  match duration route with
  | Some d => if truthy d then Some (parseInt (removeFirst "s" d)) else None
  | None => None
  end.

(** [totalDuration ? `${Math.round(totalDuration / 60)} minutes` : null]:
    [null], [NaN] and 0 give [null]. *)
Definition estimatedWalkingTimeOf (totalDuration : option ParsedInt)
  : option string :=
  match totalDuration with
  | Some (Integer z) =>
      if (z =? 0)%Z then None
      else Some (pretty (roundedMinutes z) +:+ " minutes")
  | _ => None
  end.

(** The [optimization] object of the optimized return. *)
Definition statistics (intermediates : list Stop) (route : Route)
  (optimizedOrder : list nat) : Optimization.t :=
  let totalDuration := totalDurationOf route in
  {| Optimization.originalOrder := imap (fun index _ => index) intermediates;
     Optimization.optimizedOrder := optimizedOrder;
     Optimization.totalDuration := totalDuration;
     Optimization.totalDistance := numberOrNull (distanceMeters route);
     Optimization.estimatedWalkingTime :=
       estimatedWalkingTimeOf totalDuration |}.

(** The [optimization] field of what [optimizeRouteOrder] returns: it is
    there on the optimized path only. *)
Definition optimizationOf (places : list Stop) (travelMode : string)
  (response : RoutesResponse) : option Optimization.t :=
  match optimizeRouteOrder places travelMode response, response with
  | Optimized _ optimizedOrder, RoutesHttpOk (Some (route :: _)) =>
      Some (statistics (sliceInner (List.filter hasPlaceId places)) route
              optimizedOrder)
  | _, _ => None
  end.

End TripStatistics.

Import TripStatistics.

(** ** [generateIndividualPlaceUrl] of the page *)

Module PlaceLink.

Section PlaceLink.
Variable numberToString : Q -> string.

Definition generateIndividualPlaceUrl (place : Stop) : option string :=
  if hasPlaceId place
  then Some ("https://www.google.com/maps/place/?q=place_id:"
             +:+ default "" (EnhancedPlace.place_id place))
  else
    match EnhancedPlace.location place with
    | Some l =>
        Some ("https://www.google.com/maps/search/?api=1&query="
              +:+ show numberToString (lat l) +:+ ","
              +:+ show numberToString (lng l))
    | None =>
        match addressOf place with
        | Some a =>
            Some ("https://www.google.com/maps/search/?api=1&query="
                  +:+ encodeURIComponent a)
        | None => None
        end
    end.

End PlaceLink.

End PlaceLink.

Import PlaceLink.

(** ** [convertToGoogleRoutesFormat] *)

Record RoutePreferences : Type := {
  travel_mode : option string;
  optimize : option bool;
  avoid_highways : option bool;
  avoid_tolls : option bool;
}.

(** [{ latLng: { latitude, longitude } }] *)
Record LatLngPair : Type := {
  latLng_latitude : Q;
  latLng_longitude : Q;
}.

Module RoutesPayload.
Record t : Type := {
  origin : LatLngPair;
  destination : LatLngPair;
  intermediates : list LatLngPair;
  travelMode : string;
  routingPreference : string;
  computeAlternativeRoutes : bool;
  avoidHighways : bool;
  avoidTolls : bool;
  optimizeWaypointOrder : bool;
  requestedReferenceTime : string;
  languageCode : string;
  units : string;
}.
End RoutesPayload.

Module RoutesFormat.

(** [x || true] for an optional boolean. *)
Definition orTrue (x : option bool) : bool :=
  match x with
  | Some true => true
  | _ => true
  end.

(** [route_preferences?.travel_mode || 'WALK'] *)
Definition travelModeOf (preferences : option RoutePreferences) : string :=
  default "WALK" (stringOrNull (preferences ≫= travel_mode)).

(** The coordinates of a place that passes
    [place.location && place.location.lat && place.location.lng]: both
    are there and neither is 0. *)
Definition located (place : Stop) : option LatLngPair :=
  l ← EnhancedPlace.location place;
  latitude ← numberOrNull (lat l);
  longitude ← numberOrNull (lng l);
  Some {| latLng_latitude := latitude; latLng_longitude := longitude |}.

(** [now] is the value of [new Date().toISOString()]. *)
Definition convertToGoogleRoutesFormat (now : string)
  (places : list Stop) (preferences : option RoutePreferences)
  : option RoutesPayload.t :=
  let waypoints := omap located places in
  if length waypoints <? 2 then None
  else
    match waypoints with
    | [] => None
    | origin :: _ =>
        let destination := List.last waypoints origin in
        Some {| RoutesPayload.origin := origin;
                RoutesPayload.destination := destination;
                RoutesPayload.intermediates := sliceInner waypoints;
                RoutesPayload.travelMode := travelModeOf preferences;
                RoutesPayload.routingPreference := "TRAFFIC_AWARE_OPTIMAL";
                RoutesPayload.computeAlternativeRoutes := false;
                RoutesPayload.avoidHighways :=
                  orTrue (preferences ≫= avoid_highways);
                RoutesPayload.avoidTolls :=
                  orTrue (preferences ≫= avoid_tolls);
                RoutesPayload.optimizeWaypointOrder :=
                  orTrue (preferences ≫= optimize);
                RoutesPayload.requestedReferenceTime := now;
                RoutesPayload.languageCode := "en-US";
                RoutesPayload.units := "METRIC" |}
    end.

End RoutesFormat.

Import RoutesFormat.

(** ** [generatePlaces] *)

(** The answer of the language model once parsed: the fields the
    pipeline reads or hands on. *)
Module GeminiJson.
Record t : Type := {
  city : option string;
  places : option (list LlmPlace);
  route_preferences : option RoutePreferences;
  total_estimated_walking_time : option string;
  notes : option string;
}.
End GeminiJson.

(** What [model.generateContent] comes back with. *)
Inductive GeminiOutcome : Type :=
| GeminiThrown (message : string)
| GeminiText (text : string).

Module FinalResponse.
Record t : Type := {
  city : string;
  places : list Stop;
  route_preferences : option RoutePreferences;
  total_estimated_walking_time : option string;
  notes : option string;
  verification : Summary;
  optimization : option Optimization.t;
  google_maps_url : option string;
}.
End FinalResponse.

Inductive GenerateResult : Type :=
| GenerateFailure (error : string) (rawResponse : option string)
| GenerateSuccess (data : FinalResponse.t)
    (googleRoutesPayload : option RoutesPayload.t)
    (verification : BatchResult) (optimization : OptimizeResult).

Module Pipeline.

Definition fence : string := "```".
Definition jsonFence : string := "```json".

(** [s.replace(/^<marker>\s*/, '')] for a string that starts with the
    marker. *)
Definition stripOpening (marker s : string) : string :=
  if startsWith s marker
  then trimStart (dropUnits (String.length marker) s)
  else s.

(** [s.replace(/\s*```$/, '')]: a closing fence at the very end goes,
    with the white space before it. *)
Definition stripClosing (s : string) : string :=
  match withoutSuffix fence s with
  | Some body => trimEnd body
  | None => s
  end.

(** The cleaning of the model's text. *)
Definition cleanText (text : string) : string :=
  let cleanedText := trim text in
  if startsWith cleanedText jsonFence
  then stripClosing (stripOpening jsonFence cleanedText)
  else if startsWith cleanedText fence
  then stripClosing (stripOpening fence cleanedText)
  else cleanedText.

Definition doubleQuote : string := String (ascii_of_nat 34) "".

Definition walkingTimeKey : string :=
  doubleQuote +:+ "total_estimated_walking_time" +:+ doubleQuote.

(** The test for a truncated answer. *)
Definition looksTruncated (cleanedText : string) : bool :=
  negb (includes cleanedText walkingTimeKey)
  || negb (endsWith (trim cleanedText) "}").

(** The loop over the places: the first place without a name or a type
    raises. *)
Fixpoint validatePlaces (i : nat) (places : list LlmPlace) : Result unit :=
  match places with
  | [] => Ok tt
  | place :: rest =>
      if negb (truthy (name place))
         || negb (bool_decide (is_Some (stringOrNull (type place))))
      then Throw ("Place " +:+ pretty (i + 1)
                  +:+ " missing required basic data (name, type)")
      else validatePlaces (i + 1) rest
  end.

(** [place.verification && place.verification.verified] *)
Definition isVerified (place : Stop) : bool :=
  match EnhancedPlace.verification place with
  | Some v => verification_verified v
  | None => false
  end.

(** The message of the [TypeError] raised on reading [address] of
    [undefined]; the wording is the engine's. *)
Definition readingAddressOfUndefined : string :=
  "Cannot read properties of undefined (reading 'address')".

Section Pipeline.

(** Two primitives of the language: the printing of a number inside a
    template literal, and [JSON.parse]; and the time of the request as
    [new Date().toISOString()] gives it. *)
Variable numberToString : Q -> string.
Variable parseJson : string -> Result GeminiJson.t.
Variable now : string.

(** [generateOptimizedMapsUrl] on the list the sequencer returns, which
    can hold [undefined]: reading a property of it raises. *)
Definition linkOfOptimized (finalPlaces : list (option Stop))
  (travelMode : string) : Result (list Stop * option string) :=
  match mapM (fun place : option Stop => place) finalPlaces with
  | Some stops =>
      Ok (stops, generateOptimizedMapsUrl numberToString stops travelMode)
  | None => Throw readingAddressOfUndefined
  end.

(** The inner [try] block from [JSON.parse] on: an exception anywhere in
    it is an invalid answer, a [return] is the answer of the request. *)
Definition afterCleaning (cleanedText : string)
  (search : nat -> SearchResponse) (routes : RoutesResponse)
  : Result GenerateResult :=
  jsonResponse ← parseJson cleanedText;
  match stringOrNull (GeminiJson.city jsonResponse),
        GeminiJson.places jsonResponse with
  | Some city, Some mentions =>
      _ ← validatePlaces 0 mentions;
      let verificationResult :=
        verifyAllPlaces {| places := Some mentions; city := city |} search in
      match verificationResult with
      | BatchFailure error =>
          Ok (GenerateFailure
                ("Failed to verify places with Google Places API: "
                 +:+ error) None)
      | BatchSuccess _ summary enhancedPlaces =>
          let verifiedPlaces := List.filter isVerified enhancedPlaces in
          if length verifiedPlaces =? 0
          then Ok (GenerateFailure
                     "No places could be verified. Please try a different search or be more specific."
                     None)
          else
            let travelMode :=
              travelModeOf (GeminiJson.route_preferences jsonResponse) in
            let optimizationResult :=
              optimizeRouteOrder verifiedPlaces travelMode routes in
            '(finalPlaces, optimizedMapsUrl, routeOptimization) ←
              match optimizationResult with
              | Optimized places _ =>
                  '(stops, url) ← linkOfOptimized places travelMode;
                  Ok (stops, url,
                      optimizationOf verifiedPlaces travelMode routes)
              | Unoptimized _ _ _ =>
                  Ok (verifiedPlaces,
                      generateGoogleMapsUrl numberToString verifiedPlaces
                        travelMode,
                      None)
              end;
            let finalResponse :=
              {| FinalResponse.city := city;
                 FinalResponse.places := finalPlaces;
                 FinalResponse.route_preferences :=
                   GeminiJson.route_preferences jsonResponse;
                 FinalResponse.total_estimated_walking_time :=
                   GeminiJson.total_estimated_walking_time jsonResponse;
                 FinalResponse.notes := GeminiJson.notes jsonResponse;
                 FinalResponse.verification := summary;
                 FinalResponse.optimization := routeOptimization;
                 FinalResponse.google_maps_url := optimizedMapsUrl |} in
            Ok (GenerateSuccess finalResponse
                  (convertToGoogleRoutesFormat now finalPlaces
                     (GeminiJson.route_preferences jsonResponse))
                  verificationResult optimizationResult)
      end
  | _, _ => Throw "Response missing required fields (city, places array)"
  end.

(** [generatePlaces], given what the model, the searches and the routing
    request come back with. *)
Definition generatePlaces (gemini : GeminiOutcome)
  (search : nat -> SearchResponse) (routes : RoutesResponse)
  : GenerateResult :=
  match gemini with
  | GeminiThrown message => GenerateFailure message None
  | GeminiText text =>
      let cleanedText := cleanText text in
      if looksTruncated cleanedText
      then GenerateFailure
             "AI response was truncated. Please try a shorter or more specific request."
             (Some text)
      else
        match afterCleaning cleanedText search routes with
        | Ok result => result
        | Throw message =>
            GenerateFailure
              ("Invalid JSON response from AI: " +:+ message) (Some text)
        end
  end.

End Pipeline.

End Pipeline.

Import Pipeline.

(** ** The handler of [POST /api/generate-route] *)

(** What [request.json()] comes back with: an exception, or a body whose
    [userInput] can be missing. *)
Inductive RequestBody : Type :=
| BodyThrown (message : string)
| Body (userInput : option string).

(** The response of the handler: its status and what it carries. *)
Inductive RouteAnswer : Type :=
| Rejected (status : nat) (error : string)
| Failed (status : nat) (error : string) (message : string)
| Succeeded (data : FinalResponse.t)
    (googleRoutesPayload : option RoutesPayload.t)
    (optimization : OptimizeResult) (message : string).

Module RouteHandler.

Definition statusOf (answer : RouteAnswer) : nat :=
  match answer with
  | Rejected status _ => status
  | Failed status _ _ => status
  | Succeeded _ _ _ _ => 200
  end.

Section RouteHandler.
Variable numberToString : Q -> string.
Variable parseJson : string -> Result GeminiJson.t.
Variable now : string.

(** [gemini userInput] is what the model comes back with for the prompt
    built from [userInput]. *)
Definition POST (body : RequestBody) (gemini : string -> GeminiOutcome)
  (search : nat -> SearchResponse) (routes : RoutesResponse)
  : RouteAnswer :=
  match body with
  | BodyThrown _ =>
      Failed 500 "Internal server error"
        "Something went wrong processing your request"
  | Body userInput =>
      match stringOrNull userInput with
      | None => Rejected 400 "User input is required"
      | Some input =>
          if String.length (trim input) =? 0
          then Rejected 400 "User input is required"
          else if 500 <? String.length input
          then Rejected 400
                 "Input too long. Please keep it under 500 characters."
          else
            match generatePlaces numberToString parseJson now
                    (gemini input) search routes with
            | GenerateSuccess data payload _ optimization =>
                Succeeded data payload optimization
                  "Places generated and route optimized successfully"
            | GenerateFailure error _ =>
                Failed 500 error "Failed to generate places"
            end
      end
  end.

End RouteHandler.

End RouteHandler.

Import RouteHandler.

(** * The statements' vocabulary *)

(** ** The signals of the scorer, named

    The quantities the specification's table of signals speaks of, read
    off the blocks of [calculateMatchConfidence]. *)

Module Signals.

Definition exactMatch (originalName apiName : string) : bool :=
  String.eqb originalName apiName.

Definition containsMatch (originalName apiName : string) : bool :=
  includes originalName apiName || includes apiName originalName.

(** Exact match, containment, or similarity: one of the three. *)
Definition nameMatch (originalName apiName : string) : Q :=
  if exactMatch originalName apiName then 0.6%Q
  else if containsMatch originalName apiName then 0.5%Q
  else (calculateStringSimilarity originalName apiName * 0.6)%Q.

Definition wordMatchRatio (originalName apiName : string) : Q :=
  (Qnat (countWordMatches (words originalName) (words apiName))
   / Qnat (length (words originalName)))%Q.

(** The token-overlap bonus: [wordMatchRatio * 0.15] for a mention with
    at least one token. *)
Definition tokenOverlapBonus (originalName apiName : string) : Q :=
  if 0 <? length (words originalName)
  then (wordMatchRatio originalName apiName * 0.15)%Q
  else 0%Q.

(** Address, business status and quality together. *)
Definition otherSignals (apiPlace : ApiPlace) (city : string) : Q :=
  addQualityScore apiPlace
    (addStatusScore apiPlace (addAddressScore apiPlace city 0)).

End Signals.

Import Signals.

(** ** Search failures of a batch *)

(** A search that failed: an exception, a response that is not a success,
    or no result. *)
Definition searchFailed (response : SearchResponse) : bool :=
  match response with
  | SearchThrown _ | SearchHttpError _ _ => true
  | SearchHttpOk None | SearchHttpOk (Some []) => true
  | SearchHttpOk (Some (_ :: _)) => false
  end.

(** How many of the first [n] searches failed. *)
Definition failedSearches (search : nat -> SearchResponse) (n : nat) : nat :=
  length (List.filter searchFailed (map search (seq 0 n))).

(** ** The invariant of the matrix loops

    Every cell written so far holds the distance between the prefixes it
    stands for: the rows above [i], row [i] left of column [j], and the
    first row and column. *)

Definition filledUpTo (str1 str2 : string) (m : Matrix) (i j : nat) : Prop :=
  forall a b, a <= String.length str2 -> b <= String.length str1 ->
    (a = 0 \/ b = 0 \/ a < i \/ (a = i /\ b < j)) ->
    cell m a b = Some (lev str2 str1 a b).

(** ** The invariant of the loop of [findBestMatch]

    The best match holds a place exactly when its confidence is above 0,
    and its confidence is never negative. *)

Definition placeIffPositive (bestMatch : BestMatch.t) : Prop :=
  (is_Some (BestMatch.place bestMatch)
   <-> (0 < BestMatch.confidence bestMatch)%Q)
  /\ (0 <= BestMatch.confidence bestMatch)%Q.

(** The candidate can be scored, and scores above 0. *)
Definition scoresAbove0 (originalPlace : LlmPlace) (city : string)
  (apiPlace : ApiPlace) : Prop :=
  exists v, calculateMatchConfidence originalPlace apiPlace city = Ok v
            /\ (0 < v)%Q.

Definition scorable (originalPlace : LlmPlace) (city : string)
  (apiPlace : ApiPlace) : Prop :=
  exists v, calculateMatchConfidence originalPlace apiPlace city = Ok v.

(** ** A display name that is absent or empty

    In either of its shapes: a missing field, an empty string, or a
    localized-text object whose text is missing or empty. *)


(** ** What a link must carry

    The value a stop contributes as an origin or as a destination: its
    encoded address, or failing that its coordinates. *)

Definition endpointValue (numberToString : Q -> string) (place : Stop)
  : option string :=
  match addressOf place, EnhancedPlace.location place with
  | Some a, _ => Some (urlEncode a)
  | None, Some l => Some (showLocation numberToString l)
  | None, None => None
  end.

(** The link carries [key=value] for the value of the stop. *)
Definition carries (numberToString : Q -> string) (url key : string)
  (place : Stop) : Prop :=
  forall value, endpointValue numberToString place = Some value ->
    includes url ("&" +:+ key +:+ "=" +:+ value) = true.

(** ** The choice of [findBestMatch]

    What the loop has established about the best match once the
    candidates [seen] are behind it: no candidate seen scores more than
    its confidence; a best match without a place is at confidence 0; and
    a best match with a place is built from one of the candidates seen,
    whose score is that confidence and is above 0. *)

Definition bestOf (originalPlace : LlmPlace) (city : string)
  (seen : list ApiPlace) (best : BestMatch.t) : Prop :=
  (forall apiPlace v,
      apiPlace ∈ seen ->
      calculateMatchConfidence originalPlace apiPlace city = Ok v ->
      (v <= BestMatch.confidence best)%Q)
  /\ match BestMatch.place best with
     | None => BestMatch.confidence best = 0%Q
     | Some chosen =>
         exists apiPlace,
           apiPlace ∈ seen
           /\ chosen = toVerifiedPlace apiPlace
           /\ calculateMatchConfidence originalPlace apiPlace city
              = Ok (BestMatch.confidence best)
           /\ (0 < BestMatch.confidence best)%Q
     end.

(** ** Answers of the routing service *)

(** The answer carries an index list: the one case in which the
    sequencer reorders. *)
Definition indexAnswer (response : RoutesResponse) : option (list nat) :=
  match response with
  | RoutesHttpOk (Some (route :: _)) =>
      optimizedIntermediateWaypointIndex route
  | _ => None
  end.

(** ** Strings whose units all pass a test *)

Fixpoint allUnits (p : ascii -> bool) (s : string) : bool :=
  match s with
  | EmptyString => true
  | String c s' => p c && allUnits p s'
  end.

Definition isDecimalDigit (c : ascii) : bool :=
  let n := nat_of_ascii c in (48 <=? n) && (n <=? 57).

(** ** Units that are safe inside a parameter of a link *)



(** The four values a link can have as its travel mode. *)
Definition linkModes : list string :=
  ["walking"; "driving"; "transit"; "bicycling"].

(** ** The stages of a request *)

(** The stops the pipeline keeps: the enhanced places of the batch that
    are verified, in the order of the mentions. *)
Definition verifiedStops (city : string) (mentions : list LlmPlace)
  (search : nat -> SearchResponse) : list Stop :=
  List.filter isVerified
    (map enhance
       (imap (fun i place => verifyPlace place city (search i)) mentions)).

(** The text of the model passes every check made before the searches:
    it is not truncated, it parses, it names a city and its places each
    have a name and a type. *)
Definition accepted (parseJson : string -> Result GeminiJson.t)
  (text : string) (jsonResponse : GeminiJson.t) (city : string)
  (mentions : list LlmPlace) : Prop :=
  looksTruncated (cleanText text) = false
  /\ parseJson (cleanText text) = Ok jsonResponse
  /\ stringOrNull (GeminiJson.city jsonResponse) = Some city
  /\ GeminiJson.places jsonResponse = Some mentions
  /\ validatePlaces 0 mentions = Ok tt.

(** * Sample data *)

Module Samples.

Definition mention (n : string) : LlmPlace :=
  {| name := n; type := Some "museum"; description := None;
     reasoning := None |}.

(** A search record with the localized display name [n]. *)
Definition candidate (n : DisplayName) (address : option string)
  (status : option string) (stars reviews : option Q) : ApiPlace :=
  {| id := Some "ChIJ-sample"; displayName := n;
     formattedAddress := address; location := None; rating := stars;
     userRatingCount := reviews; businessStatus := status;
     types := None; photos := None |}.

Definition bare (n : DisplayName) : ApiPlace :=
  candidate n None None None None.

End Samples.

Module BatchSamples.

Definition mentions : list LlmPlace :=
  [Samples.mention "Museum"; Samples.mention "Castle";
   Samples.mention "Tower"].

(** The first search finds a place, the second is refused, the third
    finds nothing. *)
Definition search (i : nat) : SearchResponse :=
  match i with
  | 0 => SearchHttpOk
           (Some [Samples.bare (NameLocalized (Some "National Museum"))])
  | 1 => SearchHttpError 503 "unavailable"
  | _ => SearchHttpOk (Some [])
  end.

End BatchSamples.

Module RouteSamples.

(** A stop with an address and, possibly, an identifier. *)
Definition stop (n : string) (address : option string)
  (placeId : option string) : Stop :=
  {| EnhancedPlace.name := n; EnhancedPlace.type := None;
     EnhancedPlace.description := None; EnhancedPlace.reasoning := None;
     EnhancedPlace.address := address; EnhancedPlace.location := None;
     EnhancedPlace.place_id := placeId; EnhancedPlace.rating := None;
     EnhancedPlace.userRatingCount := None;
     EnhancedPlace.businessStatus := None; EnhancedPlace.types := [];
     EnhancedPlace.photos := []; EnhancedPlace.verification := None |}.

Definition identified (n : string) : Stop :=
  stop n (Some (n +:+ " street")) (Some ("id-" +:+ n)).

Definition anonymous (n : string) : Stop :=
  stop n (Some (n +:+ " street")) None.

Definition fiveStops : list Stop :=
  [identified "a"; identified "b"; identified "c"; identified "d";
   identified "e"].

Definition answer (order : list nat) : RoutesResponse :=
  RoutesHttpOk
    (Some [{| optimizedIntermediateWaypointIndex := Some order;
              duration := Some "1830s"; distanceMeters := Some 2100%Q |}]).

End RouteSamples.

Module LinkSamples.

(** Prints the integer part of a number; on integers this is what a
    template literal prints. *)
Definition showInteger (q : Q) : string :=
  pretty (Qnum q `div` Z.pos (Qden q))%Z.

Fixpoint filler (n : nat) : string :=
  match n with
  | 0 => ""
  | S n' => String "x" (filler n')
  end.

(** A stop whose address is [n] followed by 700 units of filler. *)
Definition farStop (n : string) : Stop :=
  RouteSamples.stop n (Some (n +:+ filler 700)) (Some ("id-" +:+ n)).

Definition longRoute : list Stop :=
  [farStop "a"; farStop "b"; farStop "c"; farStop "d"].

(** A stop known by its identifier only: no address, no coordinates. *)
Definition idOnly (n : string) : Stop :=
  RouteSamples.stop n None (Some ("id-" +:+ n)).

Definition idOnlyEnds : list Stop :=
  [idOnly "o"; farStop "b"; farStop "c"; farStop "e"; idOnly "d"].

End LinkSamples.

Module PayloadSamples.

(** A stop at the coordinates [(latitude, longitude)]. *)
Definition at_ (n : string) (latitude longitude : Q) : Stop :=
  {| EnhancedPlace.name := n; EnhancedPlace.type := None;
     EnhancedPlace.description := None; EnhancedPlace.reasoning := None;
     EnhancedPlace.address := Some (n +:+ " street");
     EnhancedPlace.location :=
       Some {| lat := Some latitude; lng := Some longitude |};
     EnhancedPlace.place_id := None; EnhancedPlace.rating := None;
     EnhancedPlace.userRatingCount := None;
     EnhancedPlace.businessStatus := None; EnhancedPlace.types := [];
     EnhancedPlace.photos := []; EnhancedPlace.verification := None |}.

(** Three stops with coordinates; the second is on the equator, so its
    latitude fails the test of the filter. *)
Definition stops : list Stop :=
  [at_ "a" 41.15%Q (-8.61)%Q; at_ "b" 0%Q 9.45%Q; at_ "c" 41.14%Q (-8.6)%Q].

(** Preferences that ask for no optimization and no avoidance. *)
Definition asIs : RoutePreferences :=
  {| travel_mode := None; optimize := Some false;
     avoid_highways := Some false; avoid_tolls := Some false |}.

End PayloadSamples.

Module RequestSamples.

Definition lineFeed : string := String (ascii_of_nat 10) "".

(** The body of an answer, and the answer of the model: the body
    between fences. *)
Definition answerBody : string :=
  "{" +:+ walkingTimeKey +:+ ": " +:+ doubleQuote +:+ "30 minutes"
  +:+ doubleQuote +:+ "}".

Definition answerText : string :=
  jsonFence +:+ lineFeed +:+ answerBody +:+ lineFeed +:+ fence.

(** What the body stands for, with the mentions of the batch sample. *)
Definition parsed : GeminiJson.t :=
  {| GeminiJson.city := Some "Porto";
     GeminiJson.places := Some BatchSamples.mentions;
     GeminiJson.route_preferences := None;
     GeminiJson.total_estimated_walking_time := Some "30 minutes";
     GeminiJson.notes := None |}.

(** A parser that knows this one body. *)
Definition parse (cleanedText : string) : Result GeminiJson.t :=
  if String.eqb cleanedText answerBody then Ok parsed
  else Throw "Unexpected end of JSON input".

Definition model (userInput : string) : GeminiOutcome :=
  GeminiText answerText.

(** Every search finds one place, which bears the name of the
    mention. *)
Definition found (i : nat) : SearchResponse :=
  match BatchSamples.mentions !! i with
  | Some mention =>
      SearchHttpOk (Some [Samples.bare (NameLocalized (Some (name mention)))])
  | None => SearchHttpOk None
  end.

Definition instant : string := "2024-05-01T10:00:00.000Z".

End RequestSamples.

(** * Properties *)

(** ** Loops *)

Lemma forLoop_S {St : Type} (lo n : nat) (body : nat -> St -> St) (s : St) :
  forLoop lo (S n) body s = forLoop (S lo) n body (body lo s).
Proof. reflexivity. Qed.

Lemma forLoop_invariant {St : Type} (P : nat -> St -> Prop) (n : nat) :
  forall (lo : nat) (body : nat -> St -> St) (s : St),
    P lo s ->
    (forall i st, lo <= i -> i < lo + n -> P i st -> P (S i) (body i st)) ->
    P (lo + n) (forLoop lo n body s).
Proof.
  induction n as [|n IH]; intros lo body s Hs Hstep.
  - rewrite Nat.add_0_r. exact Hs.
  - rewrite forLoop_S, Nat.add_succ_r, <- Nat.add_succ_l.
    apply IH.
    + apply Hstep; [lia | lia | exact Hs].
    + intros i st Hlo Hhi. apply Hstep; lia.
Qed.

(** ** The recurrence of the edit distance *)

Section LevFacts.
Variables a b : string.

Lemma lev_0_l (j : nat) : lev a b 0 j = j.
Proof. reflexivity. Qed.

Lemma lev_0_r (i : nat) : lev a b i 0 = i.
Proof. destruct i; reflexivity. Qed.

Lemma lev_S_S (i j : nat) :
  lev a b (S i) (S j) =
  Nat.min (lev a b i (S j) + 1)
    (Nat.min (lev a b (S i) j + 1)
       (lev a b i j + substitutionCost a b i j)).
Proof. reflexivity. Qed.

Lemma substitutionCost_le_1 (i j : nat) : substitutionCost a b i j <= 1.
Proof. unfold substitutionCost. destruct (String.eqb _ _); lia. Qed.

Lemma lev_step_down_l (i j : nat) : lev a b (S i) j <= lev a b i j + 1.
Proof.
  destruct j as [|j]; [rewrite !lev_0_r; lia|].
  rewrite lev_S_S. lia.
Qed.

Lemma lev_step_down_r (i j : nat) : lev a b i (S j) <= lev a b i j + 1.
Proof.
  destruct i as [|i]; [rewrite !lev_0_l; lia|].
  rewrite lev_S_S. lia.
Qed.

Lemma lev_step_up_l (i j : nat) : lev a b i j <= lev a b (S i) j + 1.
Proof.
  induction j as [|j IH]; [rewrite !lev_0_r; lia|].
  rewrite lev_S_S.
  pose proof (lev_step_down_r i j). lia.
Qed.

Lemma lev_step_up_r (i j : nat) : lev a b i j <= lev a b i (S j) + 1.
Proof.
  induction i as [|i IH]; [rewrite !lev_0_l; lia|].
  rewrite lev_S_S.
  pose proof (lev_step_down_l i j). lia.
Qed.

(** When the two last units agree, nothing beats keeping them. *)
Lemma lev_same_unit (i j : nat) :
  substitutionCost a b i j = 0 -> lev a b (S i) (S j) = lev a b i j.
Proof.
  intros Hc. rewrite lev_S_S, Hc.
  pose proof (lev_step_up_r i j). pose proof (lev_step_up_l i j). lia.
Qed.

Lemma lev_other_unit (i j : nat) :
  substitutionCost a b i j <> 0 ->
  lev a b (S i) (S j) =
  min3 (lev a b i j + 1) (lev a b (S i) j + 1) (lev a b i (S j) + 1).
Proof.
  intros Hc. rewrite lev_S_S. unfold min3.
  pose proof (substitutionCost_le_1 i j). 
  replace (substitutionCost a b i j) with 1 by lia. lia.
Qed.
End LevFacts.

Lemma substitutionCost_sym (a b : string) (i j : nat) :
  substitutionCost a b i j = substitutionCost b a j i.
Proof. unfold substitutionCost. by rewrite String.eqb_sym. Qed.

Lemma lev_sym (a b : string) (i : nat) :
  forall j, lev a b i j = lev b a j i.
Proof.
  induction i as [|i IHi]; intros j.
  - by rewrite lev_0_l, lev_0_r.
  - induction j as [|j IHj].
    + by rewrite lev_0_l, lev_0_r.
    + rewrite !lev_S_S, IHj, !IHi, substitutionCost_sym. lia.
Qed.

Lemma editDistance_sym (a b : string) : editDistance a b = editDistance b a.
Proof. apply lev_sym. Qed.

(** ** The matrix of [calculateStringSimilarity] *)

Lemma cell_setCell (m : Matrix) (i j v a b : nat) :
  cell (setCell m i j v) a b =
  if decide (a = i /\ b = j) then Some v else cell m a b.
Proof.
  unfold cell, setCell.
  destruct (decide (a = i)) as [->|Hai].
  - rewrite lookup_insert_eq. simpl.
    destruct (decide (b = j)) as [->|Hbj].
    + rewrite lookup_insert_eq. by rewrite decide_True.
    + rewrite lookup_insert_ne by done.
      rewrite decide_False by tauto.
      by destruct (m !! i).
  - rewrite lookup_insert_ne by done.
    by rewrite decide_False by tauto.
Qed.

Lemma cellOr0_Some (m : Matrix) (i j v : nat) :
  cell m i j = Some v -> cellOr0 m i j = v.
Proof. unfold cellOr0. by intros ->. Qed.

Section MatrixInvariant.
Variables str1 str2 : string.
Let len1 := String.length str1.
Let len2 := String.length str2.

Local Abbreviation filledUpTo := (filledUpTo str1 str2).

Lemma initRows_spec (a : nat) :
  a <= len2 -> initRows len2 ∅ !! a = Some {[0 := a]}.
Proof.
  intros Ha. unfold initRows.
  cut (forall x, x < 0 + S len2 ->
         forLoop 0 (S len2) (fun i (m : Matrix) => <[i := {[0 := i]}]> m) ∅
           !! x = Some ({[0 := x]} : gmap nat nat)).
  { intros H. apply H. lia. }
  apply (forLoop_invariant
           (fun k (m : Matrix) => forall x, x < k -> m !! x = Some {[0 := x]})).
  - intros x Hx. lia.
  - intros i st _ _ IH x Hx.
    destruct (decide (x = i)) as [->|Hne].
    + by rewrite lookup_insert_eq.
    + rewrite lookup_insert_ne by done. apply IH. lia.
Qed.

Lemma init_filled :
  filledUpTo (initFirstRow len1 (initRows len2 ∅)) 1 1.
Proof.
  unfold initFirstRow.
  cut ((forall b, b < 0 + S len1 ->
          cell (forLoop 0 (S len1) (fun j m => setCell m 0 j j)
                  (initRows len2 ∅)) 0 b = Some b)
       /\ (forall a, 0 < a -> a <= len2 ->
             cell (forLoop 0 (S len1) (fun j m => setCell m 0 j j)
                     (initRows len2 ∅)) a 0 = Some a)).
  { intros [Hrow Hcol] a b Ha Hb Hreg.
    destruct (decide (a = 0)) as [->|Ha0].
    - rewrite lev_0_l. apply Hrow. lia.
    - assert (b = 0) as -> by lia. rewrite lev_0_r. apply Hcol; lia. }
  apply (forLoop_invariant
           (fun k (m : Matrix) =>
              (forall b, b < k -> cell m 0 b = Some b)
              /\ (forall a, 0 < a -> a <= len2 -> cell m a 0 = Some a))).
  - split; [intros; lia|].
    intros a Ha0 Ha. unfold cell. rewrite initRows_spec by done.
    simpl. by rewrite lookup_singleton_eq.
  - intros j st _ _ [Hrow Hcol]. split.
    + intros b Hb. rewrite cell_setCell.
      destruct (decide (0 = 0 /\ b = j)) as [[_ ->]|Hne]; [done|].
      apply Hrow. lia.
    + intros a Ha0 Ha. rewrite cell_setCell.
      rewrite decide_False by lia. by apply Hcol.
Qed.

Lemma fillCell_filled (m : Matrix) (i j : nat) :
  1 <= i -> i <= len2 -> 1 <= j -> j <= len1 ->
  filledUpTo m i j -> filledUpTo (fillCell str1 str2 i j m) i (S j).
Proof.
  intros Hi1 Hi2 Hj1 Hj2 Hm.
  destruct i as [|i]; [lia|]. destruct j as [|j]; [lia|].
  assert (cellOr0 m i j = lev str2 str1 i j) as Hd
      by (apply cellOr0_Some, Hm; lia).
  assert (cellOr0 m (S i) j = lev str2 str1 (S i) j) as Hl
      by (apply cellOr0_Some, Hm; lia).
  assert (cellOr0 m i (S j) = lev str2 str1 i (S j)) as Hu
      by (apply cellOr0_Some, Hm; lia).
  assert (forall v, v = lev str2 str1 (S i) (S j) ->
            filledUpTo (setCell m (S i) (S j) v) (S i) (S (S j))) as Hset.
  { intros v -> a b Ha Hb Hreg. rewrite cell_setCell.
    destruct (decide (a = S i /\ b = S j)) as [[-> ->]|Hne]; [done|].
    apply Hm; lia. }
  unfold fillCell. simpl. rewrite !Nat.sub_0_r.
  destruct (String.eqb (charAt str2 i) (charAt str1 j)) eqn:Heq;
    apply Hset; rewrite ?Hd, ?Hl, ?Hu.
  - symmetry. apply lev_same_unit. unfold substitutionCost. by rewrite Heq.
  - symmetry. apply lev_other_unit. unfold substitutionCost. by rewrite Heq.
Qed.

Lemma fillMatrix_filled (m : Matrix) :
  filledUpTo m 1 1 -> filledUpTo (fillMatrix str1 str2 m) (1 + len2) 1.
Proof.
  intros Hm. unfold fillMatrix.
  apply (forLoop_invariant (fun i m => filledUpTo m i 1)); [exact Hm|].
  intros i st Hi1 Hi2 Hst.
  assert (filledUpTo
            (forLoop 1 (String.length str1) (fillCell str1 str2 i) st)
            i (1 + len1)) as Hrow.
  { apply (forLoop_invariant (fun j m => filledUpTo m i j)); [exact Hst|].
    intros j st' Hj1 Hj2. apply fillCell_filled; fold len1 len2; lia. }
  intros a b Ha Hb Hreg. apply Hrow; lia.
Qed.

Lemma distanceMatrix_spec :
  cellOr0 (distanceMatrix str1 str2) len2 len1 = editDistance str1 str2.
Proof.
  apply cellOr0_Some. unfold distanceMatrix, editDistance.
  rewrite (lev_sym str1 str2).
  apply (fillMatrix_filled _ init_filled); lia.
Qed.
End MatrixInvariant.

(** ** [calculateStringSimilarity] against the specification *)

Lemma length_0_empty (s : string) : String.length s = 0 <-> s = "".
Proof. destruct s; simpl; split; intros; (done || lia). Qed.

Lemma similarity_unfold (a b : string) :
  a <> b -> a <> "" -> b <> "" ->
  calculateStringSimilarity a b =
  (1 - Qnat (editDistance a b)
       / Qnat (Nat.max (String.length a) (String.length b)))%Q.
Proof.
  intros Hab Ha Hb. unfold calculateStringSimilarity.
  apply String.eqb_neq in Hab. rewrite Hab.
  destruct (String.length a =? 0) eqn:Hla.
  { apply Nat.eqb_eq, length_0_empty in Hla. done. }
  destruct (String.length b =? 0) eqn:Hlb.
  { apply Nat.eqb_eq, length_0_empty in Hlb. done. }
  simpl. by rewrite distanceMatrix_spec.
Qed.

(** C6. [calculateStringSimilarity a b] is 1 when the strings are equal, 0
    when they differ and one of them is empty, and otherwise one minus the
    classic unit-cost Levenshtein distance over the longer length; so a
    string is at similarity 1 from itself and a non-empty string at
    similarity 0 from the empty one. *)
Theorem C6_similarity_is_normalized_edit_distance (a b : string) :
  (a = b -> calculateStringSimilarity a b = 1%Q)
  /\ (a <> b -> a = "" \/ b = "" -> calculateStringSimilarity a b = 0%Q)
  /\ (a <> b -> a <> "" -> b <> "" ->
      calculateStringSimilarity a b =
      (1 - Qnat (editDistance a b)
           / Qnat (Nat.max (String.length a) (String.length b)))%Q)
  /\ calculateStringSimilarity a a = 1%Q
  /\ (a <> "" -> calculateStringSimilarity a "" = 0%Q).
Proof.
  assert (forall x y, x <> y -> x = "" \/ y = "" ->
            calculateStringSimilarity x y = 0%Q) as Hempty.
  { intros x y Hxy Hor. unfold calculateStringSimilarity.
    apply String.eqb_neq in Hxy. rewrite Hxy.
    destruct Hor as [->| ->]; simpl; [done|].
    by rewrite orb_true_r. }
  assert (forall x, calculateStringSimilarity x x = 1%Q) as Hrefl.
  { intros x. unfold calculateStringSimilarity. by rewrite String.eqb_refl. }
  repeat split.
  - intros ->. apply Hrefl.
  - apply Hempty.
  - apply similarity_unfold.
  - apply Hrefl.
  - intros Ha. apply Hempty; auto.
Qed.

Lemma C6_similarity_witness :
  calculateStringSimilarity "kitten" "sitting" = (1 - Qnat 3 / Qnat 7)%Q
  /\ calculateStringSimilarity "museum" "museum" = 1%Q
  /\ calculateStringSimilarity "museum" "" = 0%Q.
Proof.
  destruct (C6_similarity_is_normalized_edit_distance "kitten" "sitting")
    as (_ & _ & Hdist & _).
  destruct (C6_similarity_is_normalized_edit_distance "museum" "museum")
    as (Hsame & _).
  destruct (C6_similarity_is_normalized_edit_distance "museum" "")
    as (_ & Hempty & _).
  split; [exact (Hdist ltac:(discriminate) ltac:(discriminate)
                   ltac:(discriminate))|].
  split; [exact (Hsame eq_refl)|].
  exact (Hempty ltac:(discriminate) (or_intror eq_refl)).
Defined.

Example lev_kitten : editDistance "kitten" "sitting" = 3.
Proof. reflexivity. Qed.

Example lev_flaw : editDistance "flaw" "lawn" = 2.
Proof. reflexivity. Qed.

Example sim_kitten :
  calculateStringSimilarity "kitten" "sitting" = (1 - 3 / 7)%Q.
Proof. vm_compute. reflexivity. Qed.

(** ** Arithmetic of counts *)

Lemma Qnat_nonneg (n : nat) : (0 <= Qnat n)%Q.
Proof. unfold Qnat, Qle. simpl. lia. Qed.

Lemma Qnat_pos (n : nat) : 0 < n -> (0 < Qnat n)%Q.
Proof. intros Hn. unfold Qnat, Qlt. simpl. lia. Qed.

Lemma Qnat_le (n m : nat) : n <= m -> (Qnat n <= Qnat m)%Q.
Proof. intros Hnm. unfold Qnat, Qle. simpl. lia. Qed.

Lemma ratio_bounds (n m : nat) :
  0 < m -> n <= m -> (0 <= Qnat n / Qnat m <= 1)%Q.
Proof.
  intros Hm Hnm.
  pose proof (Qnat_pos m Hm). pose proof (Qnat_nonneg n).
  pose proof (Qnat_le n m Hnm).
  split.
  - apply Qle_shift_div_l; [done | lra].
  - apply Qle_shift_div_r; [done | lra].
Qed.

Lemma ratio_nonneg (n m : nat) : 0 < m -> (0 <= Qnat n / Qnat m)%Q.
Proof.
  intros Hm. pose proof (Qnat_pos m Hm). pose proof (Qnat_nonneg n).
  apply Qle_shift_div_l; [done | lra].
Qed.

(** ** The similarity is a number between 0 and 1 *)

Lemma lev_le_max (a b : string) (i : nat) :
  forall j, lev a b i j <= Nat.max i j.
Proof.
  induction i as [|i IH]; intros j; [rewrite lev_0_l; lia|].
  destruct j as [|j]; [rewrite lev_0_r; lia|].
  rewrite lev_S_S.
  pose proof (IH j). pose proof (substitutionCost_le_1 a b i j). lia.
Qed.

Lemma similarity_bounds (a b : string) :
  (0 <= calculateStringSimilarity a b <= 1)%Q.
Proof.
  destruct (decide (a = b)) as [->|Hab].
  { unfold calculateStringSimilarity. rewrite String.eqb_refl. lra. }
  destruct (decide (a = "")) as [->|Ha].
  { unfold calculateStringSimilarity.
    apply String.eqb_neq in Hab. rewrite Hab. simpl. lra. }
  destruct (decide (b = "")) as [->|Hb].
  { unfold calculateStringSimilarity.
    apply String.eqb_neq in Hab. rewrite Hab. rewrite orb_true_r. lra. }
  rewrite similarity_unfold by done.
  assert (0 < Nat.max (String.length a) (String.length b)) as Hpos.
  { destruct a; [done|]. simpl. lia. }
  pose proof (ratio_bounds _ _ Hpos (lev_le_max a b _ _)) as [H0 H1].
  fold (editDistance a b) in H0, H1. lra.
Qed.

(** ** Each block of the scorer adds a non-negative amount *)

Lemma addNameScore_split (originalName apiName : string) (confidence : Q) :
  (addNameScore originalName apiName confidence ==
   confidence + nameMatch originalName apiName
   + (if exactMatch originalName apiName then 0
      else tokenOverlapBonus originalName apiName))%Q.
Proof.
  unfold addNameScore, nameMatch, tokenOverlapBonus, wordMatchRatio,
    exactMatch, containsMatch.
  destruct (String.eqb originalName apiName); [lra|].
  destruct (includes originalName apiName || includes apiName originalName);
    destruct (0 <? length (words originalName)); lra.
Qed.

Lemma countWordMatches_le (nameWords apiWords : list string) :
  countWordMatches nameWords apiWords <= length nameWords.
Proof.
  unfold countWordMatches.
  cut (forall k, fold_left
                   (fun wordMatches word =>
                      if existsb (wordMatchesApiWord word) apiWords
                      then wordMatches + 1 else wordMatches) nameWords k
                 <= k + length nameWords).
  { intros H. apply (H 0). }
  induction nameWords as [|w ws IH]; intros k; simpl; [lia|].
  destruct (existsb _ _); rewrite IH; lia.
Qed.

Lemma nameMatch_bounds (originalName apiName : string) :
  (0 <= nameMatch originalName apiName <= 0.6)%Q.
Proof.
  unfold nameMatch.
  pose proof (similarity_bounds originalName apiName).
  destruct (exactMatch _ _); [lra|]. destruct (containsMatch _ _); lra.
Qed.

Lemma tokenOverlapBonus_bounds (originalName apiName : string) :
  (0 <= tokenOverlapBonus originalName apiName <= 0.15)%Q.
Proof.
  unfold tokenOverlapBonus, wordMatchRatio.
  destruct (0 <? length (words originalName)) eqn:Hlen; [|lra].
  apply Nat.ltb_lt in Hlen.
  pose proof (ratio_bounds _ _ Hlen
                (countWordMatches_le (words originalName) (words apiName))).
  lra.
Qed.

Lemma addAddressScore_bounds (apiPlace : ApiPlace) (city : string) (c : Q) :
  (c <= addAddressScore apiPlace city c <= c + 0.3)%Q.
Proof.
  unfold addAddressScore. simpl.
  destruct (includes _ _); [lra|]. destruct (_ || _); lra.
Qed.

Lemma addStatusScore_bounds (apiPlace : ApiPlace) (c : Q) :
  (c <= addStatusScore apiPlace c <= c + 0.05)%Q.
Proof.
  unfold addStatusScore. destruct (businessStatus apiPlace); [|lra].
  destruct (String.eqb _ _); [lra|]. destruct (String.eqb _ _); lra.
Qed.

Lemma addQualityScore_bounds (apiPlace : ApiPlace) (c : Q) :
  (c <= addQualityScore apiPlace c <= c + 0.05)%Q.
Proof.
  unfold addQualityScore.
  destruct (atLeast (rating apiPlace) 4);
    destruct (atLeast (userRatingCount apiPlace) 1000); lra.
Qed.

Lemma otherSignals_bounds (apiPlace : ApiPlace) (city : string) :
  (0 <= otherSignals apiPlace city <= 0.4)%Q.
Proof.
  unfold otherSignals.
  pose proof (addAddressScore_bounds apiPlace city 0).
  pose proof (addStatusScore_bounds apiPlace (addAddressScore apiPlace city 0)).
  pose proof (addQualityScore_bounds apiPlace
                (addStatusScore apiPlace (addAddressScore apiPlace city 0))).
  lra.
Qed.

(** The three later blocks add the same amount whatever they start from. *)
Lemma later_blocks_shift (apiPlace : ApiPlace) (city : string) (c : Q) :
  (addQualityScore apiPlace
     (addStatusScore apiPlace (addAddressScore apiPlace city c))
   == c + otherSignals apiPlace city)%Q.
Proof.
  unfold otherSignals, addQualityScore, addStatusScore, addAddressScore.
  simpl.
  destruct (includes _ _); [|destruct (_ || _)];
    (destruct (businessStatus apiPlace);
     [destruct (String.eqb _ _); [|destruct (String.eqb _ _)]|]);
    destruct (atLeast (rating apiPlace) 4);
    destruct (atLeast (userRatingCount apiPlace) 1000); lra.
Qed.

Lemma Qmin_1_compat (x y : Q) : (x == y)%Q -> (Qmin x 1 == Qmin y 1)%Q.
Proof. intros ->. reflexivity. Qed.

(** The score, as the capped sum of the signals. *)
Lemma calculateMatchConfidence_sum (originalPlace : LlmPlace)
  (apiPlace : ApiPlace) (city apiName : string) :
  apiNameOf apiPlace = Ok apiName ->
  exists v,
    calculateMatchConfidence originalPlace apiPlace city = Ok v
    /\ (v == Qmin (nameMatch (toLowerCase (name originalPlace)) apiName
                   + (if exactMatch (toLowerCase (name originalPlace)) apiName
                      then 0
                      else tokenOverlapBonus
                             (toLowerCase (name originalPlace)) apiName)
                   + otherSignals apiPlace city) 1)%Q.
Proof.
  intros Hname. unfold calculateMatchConfidence. rewrite Hname. simpl.
  eexists. split; [reflexivity|].
  apply Qmin_1_compat.
  rewrite later_blocks_shift, addNameScore_split. lra.
Qed.

Lemma calculateMatchConfidence_Ok_inv (originalPlace : LlmPlace)
  (apiPlace : ApiPlace) (city : string) (v : Q) :
  calculateMatchConfidence originalPlace apiPlace city = Ok v ->
  exists apiName, apiNameOf apiPlace = Ok apiName.
Proof.
  unfold calculateMatchConfidence.
  destruct (apiNameOf apiPlace) as [apiName|msg]; [eauto|done].
Qed.

(** ** The confidence score *)

Lemma addNameScore_bounds (originalName apiName : string) (c : Q) :
  (c <= addNameScore originalName apiName c <= c + 0.75)%Q.
Proof.
  rewrite addNameScore_split.
  pose proof (nameMatch_bounds originalName apiName).
  pose proof (tokenOverlapBonus_bounds originalName apiName).
  destruct (exactMatch originalName apiName); lra.
Qed.

(** C2. Whenever [calculateMatchConfidence] returns a score, the score
    lies between 0 and 1: each of the four blocks leaves [confidence] at
    least as large as it found it, and the sum is capped at 1.  A score is
    returned for every candidate whose display name yields a string. *)
Theorem C2_confidence_in_unit_interval (originalPlace : LlmPlace)
  (apiPlace : ApiPlace) (city : string) :
  (forall v, calculateMatchConfidence originalPlace apiPlace city = Ok v ->
             (0 <= v <= 1)%Q)
  /\ (forall apiName, apiNameOf apiPlace = Ok apiName ->
        exists v, calculateMatchConfidence originalPlace apiPlace city = Ok v)
  /\ (forall apiName confidence,
        (confidence
         <= addNameScore (toLowerCase (name originalPlace)) apiName confidence)
        /\ (confidence <= addAddressScore apiPlace city confidence)
        /\ (confidence <= addStatusScore apiPlace confidence)
        /\ (confidence <= addQualityScore apiPlace confidence))%Q.
Proof.
  split; [|split].
  - intros v Hv.
    destruct (calculateMatchConfidence_Ok_inv _ _ _ _ Hv) as [apiName Hname].
    destruct (calculateMatchConfidence_sum originalPlace apiPlace city apiName
                Hname) as (v' & Hv' & Hsum).
    rewrite Hv in Hv'. injection Hv' as <-. rewrite Hsum.
    pose proof (nameMatch_bounds (toLowerCase (name originalPlace)) apiName).
    pose proof (tokenOverlapBonus_bounds
                  (toLowerCase (name originalPlace)) apiName).
    pose proof (otherSignals_bounds apiPlace city).
    split.
    + apply Q.min_glb; [|lra].
      destruct (exactMatch _ _); lra.
    + apply Q.le_min_r.
  - intros apiName Hname.
    destruct (calculateMatchConfidence_sum originalPlace apiPlace city apiName
                Hname) as (v & Hv & _).
    eauto.
  - intros apiName confidence.
    pose proof (addNameScore_bounds (toLowerCase (name originalPlace))
                  apiName confidence).
    pose proof (addAddressScore_bounds apiPlace city confidence).
    pose proof (addStatusScore_bounds apiPlace confidence).
    pose proof (addQualityScore_bounds apiPlace confidence).
    tauto.
Qed.

Lemma C2_confidence_witness :
  exists v,
    calculateMatchConfidence (Samples.mention "Museum")
      (Samples.candidate (NameLocalized (Some "National Museum"))
         (Some "Rua A, Lisboa, Portugal") (Some "OPERATIONAL")
         (Some 4.5%Q) (Some 2500%Q))
      "Lisboa" = Ok v
    /\ (0 <= v <= 1)%Q.
Proof.
  eexists. split; [vm_compute; reflexivity|].
  apply (proj1 (C2_confidence_in_unit_interval (Samples.mention "Museum")
                  (Samples.candidate (NameLocalized (Some "National Museum"))
                     (Some "Rua A, Lisboa, Portugal") (Some "OPERATIONAL")
                     (Some 4.5%Q) (Some 2500%Q))
                  "Lisboa")).
  vm_compute. reflexivity.
Defined.

(** With containment, full token overlap, the city in the address, an open
    business and both quality bonuses the sum is 1.05, and the cap
    applies. *)
Example confidence_capped :
  calculateMatchConfidence (Samples.mention "Museum")
    (Samples.candidate (NameLocalized (Some "National Museum"))
       (Some "Rua A, Lisboa, Portugal") (Some "OPERATIONAL")
       (Some 4.5%Q) (Some 2500%Q))
    "Lisboa" = Ok 1%Q.
Proof. vm_compute. reflexivity. Qed.

(** The scenario of the specification: neither the exact match nor the
    containment applies, and similarity, region and status together reach
    0.39, above the threshold. *)
Example national_museum_verified :
  VerificationResult.verified
    (verifyPlace (Samples.mention "National Museum") "Lisbon"
       (SearchHttpOk
          (Some [Samples.candidate (NameLocalized (Some "Museu Nacional"))
                   (Some "Lisboa, Portugal") (Some "OPERATIONAL")
                   None None])))
  = true.
Proof. vm_compute. reflexivity. Qed.

(** C1, as stated, fails: on the containment path the bonus is added.
    The mention "Museum" is contained in "National Museum"; the score is
    0.5 + 0.15, not 0.5. *)
Lemma C1_bonus_on_containment_counterexample :
  ~ (forall (originalPlace : LlmPlace) (apiPlace : ApiPlace)
       (city apiName : string) (v : Q),
        apiNameOf apiPlace = Ok apiName ->
        calculateMatchConfidence originalPlace apiPlace city = Ok v ->
        exactMatch (toLowerCase (name originalPlace)) apiName
        || containsMatch (toLowerCase (name originalPlace)) apiName = true ->
        (v == Qmin (nameMatch (toLowerCase (name originalPlace)) apiName
                    + 0 + otherSignals apiPlace city) 1)%Q).
Proof.
  intros Hclaim.
  assert (calculateMatchConfidence (Samples.mention "Museum")
            (Samples.bare (NameLocalized (Some "National Museum"))) "Porto"
          = Ok 0.650%Q) as Hscore by (vm_compute; reflexivity).
  specialize (Hclaim (Samples.mention "Museum")
                (Samples.bare (NameLocalized (Some "National Museum")))
                "Porto" "national museum" 0.650%Q eq_refl Hscore eq_refl).
  vm_compute in Hclaim. discriminate Hclaim.
Qed.

(** C1, amended. On the exact-match path the bonus is not added: the
    score is the cap of 0.6 plus the other signals.  When the names
    differ after case folding, with or without containment, the
    token-overlap term is added: the score is the cap of the name signal
    plus that term plus the other signals, the name signal being 0.5 on
    the containment path.  The term is [wordMatchRatio * 0.15] for a
    mention with at least one token and 0 otherwise; it lies between 0
    and 0.15. *)
Theorem C1_bonus_skipped_on_exact_match_only (originalPlace : LlmPlace)
  (apiPlace : ApiPlace) (city apiName : string) (v : Q) :
  apiNameOf apiPlace = Ok apiName ->
  calculateMatchConfidence originalPlace apiPlace city = Ok v ->
  (exactMatch (toLowerCase (name originalPlace)) apiName = true ->
   (v == Qmin (0.6 + otherSignals apiPlace city) 1)%Q)
  /\ (exactMatch (toLowerCase (name originalPlace)) apiName = false ->
      (v == Qmin (nameMatch (toLowerCase (name originalPlace)) apiName
                  + tokenOverlapBonus (toLowerCase (name originalPlace))
                      apiName
                  + otherSignals apiPlace city) 1)%Q)
  /\ (exactMatch (toLowerCase (name originalPlace)) apiName = false ->
      containsMatch (toLowerCase (name originalPlace)) apiName = true ->
      (v == Qmin (0.5
                  + tokenOverlapBonus (toLowerCase (name originalPlace))
                      apiName
                  + otherSignals apiPlace city) 1)%Q)
  /\ tokenOverlapBonus (toLowerCase (name originalPlace)) apiName
     = (if 0 <? length (words (toLowerCase (name originalPlace)))
        then (wordMatchRatio (toLowerCase (name originalPlace)) apiName
              * 0.15)%Q
        else 0%Q)
  /\ (0 <= tokenOverlapBonus (toLowerCase (name originalPlace)) apiName
      <= 0.15)%Q.
Proof.
  intros Hname Hv.
  destruct (calculateMatchConfidence_sum originalPlace apiPlace city apiName
              Hname) as (v' & Hv' & Hsum).
  rewrite Hv in Hv'. injection Hv' as <-.
  pose proof (tokenOverlapBonus_bounds (toLowerCase (name originalPlace))
                apiName) as Hbonus.
  unfold nameMatch in *.
  split; [|split; [|split; [|split; [reflexivity | exact Hbonus]]]].
  - intros Hexact. rewrite Hexact in Hsum. rewrite Hsum.
    apply Qmin_1_compat. lra.
  - intros Hexact. rewrite Hexact in Hsum |- *. exact Hsum.
  - intros Hexact Hcontains. rewrite Hexact, Hcontains in Hsum. exact Hsum.
Qed.

Lemma C1_bonus_witness :
  exists v,
    calculateMatchConfidence (Samples.mention "Museum")
      (Samples.bare (NameLocalized (Some "National Museum"))) "Porto" = Ok v
    /\ (v == 0.65)%Q.
Proof.
  assert (calculateMatchConfidence (Samples.mention "Museum")
            (Samples.bare (NameLocalized (Some "National Museum"))) "Porto"
          = Ok 0.650%Q) as Hscore by (vm_compute; reflexivity).
  exists 0.650%Q. split; [exact Hscore|].
  destruct (C1_bonus_skipped_on_exact_match_only (Samples.mention "Museum")
              (Samples.bare (NameLocalized (Some "National Museum")))
              "Porto" "national museum" 0.650%Q eq_refl Hscore)
    as (_ & _ & Hcontain & _).
  rewrite (Hcontain eq_refl eq_refl). vm_compute. reflexivity.
Defined.

(** ** A candidate without a name *)

Lemma includes_empty (s : string) : includes s "" = true.
Proof. destruct s; reflexivity. Qed.




(** A localized display name whose text is missing or empty is an object
    all the way to [toLowerCase], and the scorer raises. *)
Lemma apiNameOf_textless (apiPlace : ApiPlace) :
  displayName apiPlace = NameLocalized None
  \/ displayName apiPlace = NameLocalized (Some "") ->
  forall originalPlace city,
    calculateMatchConfidence originalPlace apiPlace city = Throw notAFunction.
Proof.
  intros Hd originalPlace city. unfold calculateMatchConfidence, apiNameOf.
  destruct Hd as [-> | ->]; reflexivity.
Qed.

(** The candidate's name is read as the empty string exactly when its
    display name is absent or is the empty string. *)
Lemma apiNameOf_empty_iff (apiPlace : ApiPlace) :
  apiNameOf apiPlace = Ok ""
  <-> displayName apiPlace = NameAbsent
      \/ displayName apiPlace = NamePlain "".
Proof.
  unfold apiNameOf. split.
  - destruct (displayName apiPlace) as [|s|[t|]]; simpl; auto.
    + destruct s as [|c s]; [auto|]. simpl. discriminate.
    + destruct t as [|c t]; simpl; discriminate.
    + discriminate.
  - intros [-> | ->]; reflexivity.
Qed.




(** ** The best match *)

Lemma Qgt_bool_true (a b : Q) : Qgt_bool a b = true <-> (b < a)%Q.
Proof.
  unfold Qgt_bool. rewrite negb_true_iff.
  destruct (Qle_bool a b) eqn:Hle.
  - apply Qle_bool_iff in Hle. split; [done | intros; lra].
  - split; [|done]. intros _. apply Qnot_le_lt. intros Hab.
    apply Qle_bool_iff in Hab. congruence.
Qed.

Lemma Qgt_bool_false (a b : Q) : Qgt_bool a b = false <-> (a <= b)%Q.
Proof.
  unfold Qgt_bool. rewrite negb_false_iff. apply Qle_bool_iff.
Qed.

Section BestMatchLoop.
Variable originalPlace : LlmPlace.
Variable city : string.

Local Abbreviation score :=
  (fun apiPlace => calculateMatchConfidence originalPlace apiPlace city).

Lemma findBestMatch_loop (apiResults : list ApiPlace) :
  forall bestMatch, placeIffPositive bestMatch ->
    match forOf (considerCandidate originalPlace city) apiResults bestMatch
    with
    | Ok best =>
        placeIffPositive best
        /\ Forall (scorable originalPlace city) apiResults
        /\ ((0 < BestMatch.confidence best)%Q <->
            (0 < BestMatch.confidence bestMatch)%Q
            \/ Exists (scoresAbove0 originalPlace city) apiResults)
    | Throw _ => ~ Forall (scorable originalPlace city) apiResults
    end.
Proof.
  induction apiResults as [|apiPlace rest IH]; intros bestMatch Hwf.
  - simpl. split; [done|]. split; [constructor|].
    split; [auto|]. intros [H|H]; [done | inversion H].
  - simpl. unfold considerCandidate at 1.
    destruct (score apiPlace) as [v|msg] eqn:Hscore; simpl.
    2:{ intros Hall. inversion Hall as [|? ? [v Hv] _]; subst. congruence. }
    destruct (Qgt_bool v (BestMatch.confidence bestMatch)) eqn:Hgt.
    + apply Qgt_bool_true in Hgt. destruct Hwf as [Hplace Hnonneg].
      specialize (IH {| BestMatch.place := Some (toVerifiedPlace apiPlace);
                        BestMatch.confidence := v |}).
      destruct (forOf _ rest _) as [best|msg].
      * destruct IH as (Hwf' & Hall & Hpos).
        { split; simpl; [|lra]. split; [intros _; lra | eauto]. }
        split; [done|]. split; [constructor; [by exists v | done]|].
        rewrite Hpos. simpl. split.
        -- intros [Hv|Hex]; right;
             [left; exists v; split; [done | lra] | by right].
        -- intros [Hb|Hex]; [left; lra|].
           inversion Hex as [? ? (v' & Hv' & Hv'pos)|]; subst;
             [left; lra | by right].
      * intros Hall. apply IH.
        { split; simpl; [|lra]. split; [intros _; lra | eauto]. }
        by inversion Hall.
    + apply Qgt_bool_false in Hgt.
      specialize (IH bestMatch Hwf).
      destruct (forOf _ rest _) as [best|msg].
      * destruct IH as (Hwf' & Hall & Hpos).
        split; [done|]. split; [constructor; [by exists v | done]|].
        rewrite Hpos. split.
        -- intros [Hb|Hex]; [by left | right; by right].
        -- intros [Hb|Hex]; [by left|].
           inversion Hex as [? ? (v' & Hv' & Hv'pos)|]; subst;
             [|by right].
           left. rewrite Hscore in Hv'. injection Hv' as <-. lra.
      * intros Hall. apply IH. by inversion Hall.
Qed.

Lemma initialBestMatch_invariant : placeIffPositive initialBestMatch.
Proof.
  split; simpl; [|lra]. split; [intros [? ?]; done | intros; lra].
Qed.

Lemma findBestMatch_spec (apiResults : list ApiPlace) :
  match findBestMatch originalPlace apiResults city with
  | Ok best =>
      Forall (scorable originalPlace city) apiResults
      /\ (is_Some (BestMatch.place best) <->
          Exists (scoresAbove0 originalPlace city) apiResults)
  | Throw _ => ~ Forall (scorable originalPlace city) apiResults
  end.
Proof.
  unfold findBestMatch.
  pose proof (findBestMatch_loop apiResults initialBestMatch
                initialBestMatch_invariant) as H.
  destruct (forOf _ apiResults _) as [best|msg]; [|done].
  destruct H as ((Hplace & _) & Hall & Hpos).
  split; [done|]. rewrite Hplace, Hpos. simpl.
  split; [intros [H|H]; [lra | done] | by right].
Qed.

End BestMatchLoop.

Lemma verifyPlace_results (place : LlmPlace) (city : string)
  (results : list ApiPlace) :
  is_Some (VerificationResult.verifiedPlace
             (verifyPlace place city (SearchHttpOk (Some results))))
  <-> Forall (scorable place city) results
      /\ Exists (scoresAbove0 place city) results.
Proof.
  pose proof (findBestMatch_spec place city results) as Hspec.
  destruct results as [|apiPlace rest].
  { simpl. split; [intros [? ?]; done | intros [_ H]; inversion H]. }
  unfold verifyPlace.
  destruct (findBestMatch place (apiPlace :: rest) city) as [best|msg].
  - simpl. destruct Hspec as [Hall Hiff]. rewrite Hiff. tauto.
  - simpl. split; [intros [? ?]; done | tauto].
Qed.

(** C3, as stated, fails: a search that returned one candidate, scoring
    0, leaves no resolved candidate. *)
Lemma C3_zero_score_counterexample :
  ~ (forall (place : LlmPlace) (city : string) (results : list ApiPlace),
       is_Some (VerificationResult.verifiedPlace
                  (verifyPlace place city (SearchHttpOk (Some results))))
       <-> results <> []).
Proof.
  intros Hclaim.
  destruct (proj2 (Hclaim (Samples.mention "abc") "Porto"
                     [Samples.bare (NameLocalized (Some "xyz"))])
              ltac:(discriminate)) as [vp Hvp].
  vm_compute in Hvp. discriminate Hvp.
Qed.

(** C3, amended. The resolved candidate is present exactly when the
    search returned candidates that could all be scored and of which one
    scored above 0; it is absent when the search returned no candidate,
    and when the search failed. *)
Theorem C3_resolved_iff_some_positive_score (place : LlmPlace)
  (city : string) (response : SearchResponse) :
  (is_Some (VerificationResult.verifiedPlace
              (verifyPlace place city response))
   <-> exists results,
         response = SearchHttpOk (Some results)
         /\ Forall (scorable place city) results
         /\ Exists (scoresAbove0 place city) results)
  /\ (searchFailed response = true ->
      VerificationResult.verifiedPlace (verifyPlace place city response)
      = None).
Proof.
  split.
  - split.
    + destruct response as [msg|status text|[results|]];
        try (intros [? ?]; done).
      intros H. exists results. split; [done|].
      by apply verifyPlace_results.
    + intros (results & -> & Hall & Hex). by apply verifyPlace_results.
  - destruct response as [msg|status text|[[|? ?]|]]; done.
Qed.

Lemma C3_resolved_witness :
  VerificationResult.verifiedPlace
    (verifyPlace (Samples.mention "abc") "Porto" (SearchHttpOk (Some [])))
  = None
  /\ is_Some (VerificationResult.verifiedPlace
                (verifyPlace (Samples.mention "Museum") "Porto"
                   (SearchHttpOk
                      (Some [Samples.bare
                               (NameLocalized (Some "National Museum"))])))).
Proof.
  split.
  - exact (proj2 (C3_resolved_iff_some_positive_score
                    (Samples.mention "abc") "Porto" (SearchHttpOk (Some [])))
             eq_refl).
  - apply (proj1 (C3_resolved_iff_some_positive_score _ _ _)).
    eexists. split; [reflexivity|]. split.
    + constructor; [|constructor]. eexists. vm_compute. reflexivity.
    + constructor. eexists. split; [vm_compute; reflexivity|].
      vm_compute. reflexivity.
Defined.

(** ** The batch *)

Lemma verifyPlace_failed (place : LlmPlace) (city : string)
  (response : SearchResponse) :
  searchFailed response = true ->
  exists reason, verifyPlace place city response = failure place reason.
Proof.
  destruct response as [msg|status text|[[|? ?]|]]; intros Hf;
    try discriminate Hf; eexists; reflexivity.
Qed.

Lemma verified_not_failed (place : LlmPlace) (city : string)
  (response : SearchResponse) :
  VerificationResult.verified (verifyPlace place city response) = true ->
  searchFailed response = false.
Proof.
  destruct (searchFailed response) eqn:Hf; [|done].
  destruct (verifyPlace_failed place city response Hf) as [reason ->].
  done.
Qed.

(** The verified results and the failed searches never overlap. *)
Lemma verified_plus_failed (city : string) (mentions : list LlmPlace) :
  forall search : nat -> SearchResponse,
    length (List.filter VerificationResult.verified
              (imap (fun i place => verifyPlace place city (search i))
                 mentions))
    + failedSearches search (length mentions)
    <= length mentions.
Proof.
  unfold failedSearches.
  induction mentions as [|place rest IH]; intros search; [simpl; lia|].
  rewrite imap_cons. cbn [length]. rewrite <- cons_seq, <- seq_shift.
  cbn [map List.filter]. rewrite map_map.
  specialize (IH (search ∘ S)). unfold compose in IH.
  pose proof (verified_not_failed place city (search 0)) as Hv.
  destruct (VerificationResult.verified (verifyPlace place city (search 0)));
    destruct (searchFailed (search 0)); cbn [length];
    try (specialize (Hv eq_refl); discriminate Hv); unfold compose; lia.
Qed.

Lemma summarize_rate (results : list VerificationResult.t) :
  0 < length results ->
  verificationRate (summarize results) =
  Finite (Qnat (verifiedPlaces (summarize results))
          / Qnat (totalPlaces (summarize results)) * 100).
Proof.
  intros Hlen. unfold summarize, divideCounts. simpl.
  destruct (length results =? 0) eqn:H0; [apply Nat.eqb_eq in H0; lia|].
  reflexivity.
Qed.

(** C4. A batch always succeeds.  The result at each position is
    [verifyPlace] of the mention and of its own search outcome, so it does
    not depend on the other searches; a mention whose search failed is
    unverified, at confidence 0, with a failure reason; and the summary
    counts at least as many unverified places as searches failed. *)
Theorem C4_failures_stay_local (mentions : list LlmPlace) (city : string)
  (search : nat -> SearchResponse) :
  exists results enhanced,
    verifyAllPlaces {| places := Some mentions; city := city |} search
    = BatchSuccess results (summarize results) enhanced
    /\ length results = length mentions
    /\ (forall i place, mentions !! i = Some place ->
          results !! i = Some (verifyPlace place city (search i)))
    /\ (forall i place, mentions !! i = Some place ->
          searchFailed (search i) = true ->
          exists result reason,
            results !! i = Some result
            /\ VerificationResult.verified result = false
            /\ VerificationResult.confidence result = 0%Q
            /\ VerificationResult.error result = Some reason)
    /\ (Z.of_nat (failedSearches search (length mentions))
        <= unverifiedPlaces (summarize results))%Z.
Proof.
  eexists _, _. split; [reflexivity|]. simpl.
  assert (forall i place, mentions !! i = Some place ->
            imap (fun i place => verifyPlace place city (search i)) mentions
              !! i = Some (verifyPlace place city (search i))) as Hlookup.
  { intros i place Hi. by rewrite list_lookup_imap, Hi. }
  split; [apply length_imap|]. split; [exact Hlookup|]. split.
  - intros i place Hi Hfail.
    destruct (verifyPlace_failed place city (search i) Hfail) as [reason Hr].
    exists (failure place reason), reason.
    rewrite (Hlookup i place Hi), Hr. done.
  - rewrite length_imap.
    pose proof (verified_plus_failed city mentions search). lia.
Qed.

Lemma C4_failures_witness :
  exists results enhanced,
    verifyAllPlaces
      {| places := Some BatchSamples.mentions; city := "Porto" |}
      BatchSamples.search
    = BatchSuccess results (summarize results) enhanced
    /\ (exists result reason,
          results !! 1 = Some result
          /\ VerificationResult.verified result = false
          /\ VerificationResult.confidence result = 0%Q
          /\ VerificationResult.error result = Some reason)
    /\ (2 <= unverifiedPlaces (summarize results))%Z.
Proof.
  destruct (C4_failures_stay_local BatchSamples.mentions "Porto"
              BatchSamples.search)
    as (results & enhanced & Hbatch & _ & _ & Hfailed & Hcount).
  exists results, enhanced. split; [exact Hbatch|]. split.
  - exact (Hfailed 1 (Samples.mention "Castle") eq_refl eq_refl).
  - exact Hcount.
Defined.

(** An input without an array of mentions is the one batch-level
    failure. *)
Lemma verifyAllPlaces_invalid (city : string)
  (search : nat -> SearchResponse) :
  verifyAllPlaces {| places := None; city := city |} search
  = BatchFailure "Invalid route response format".
Proof. reflexivity. Qed.

(** C5, at the input where the code departs from it: the batch of zero
    mentions divides 0 by 0, and the rate in its summary is [NaN]. *)
Theorem C5_rate_of_empty_batch (city : string)
  (search : nat -> SearchResponse) :
  verifyAllPlaces {| places := Some []; city := city |} search
  = BatchSuccess []
      {| totalPlaces := 0; verifiedPlaces := 0; verificationRate := NaN;
         unverifiedPlaces := 0 |}
      [].
Proof. reflexivity. Qed.

(** ** The sequencer *)

Lemma filter_sublist {A : Type} (f : A -> bool) (l : list A) :
  sublist (List.filter f l) l.
Proof.
  induction l as [|x l IH]; simpl; [constructor|].
  destruct (f x); by constructor.
Qed.

Lemma filter_all {A : Type} (f : A -> bool) (l : list A) :
  Forall (fun x => f x = true) l -> List.filter f l = l.
Proof.
  induction 1 as [|x l Hx _ IH]; simpl; [done|]. by rewrite Hx, IH.
Qed.

Lemma lookup_seq_range {A : Type} (l : list A) :
  map (fun i => l !! i) (seq 0 (length l)) = Some <$> l.
Proof.
  apply list_eq. intros k.
  rewrite !list_lookup_fmap.
  destruct (decide (k < length l)) as [Hk|Hk].
  - rewrite lookup_seq_lt by done. simpl.
    destruct (lookup_lt_is_Some_2 l k Hk) as [x Hx]. by rewrite Hx.
  - rewrite lookup_seq_ge by lia. simpl.
    by rewrite (lookup_ge_None_2 l k) by lia.
Qed.

Lemma omap_fmap_Some {A : Type} (l : list A) :
  omap (fun x : option A => x) (Some <$> l) = l.
Proof. induction l as [|x l IH]; [done | cbn; by f_equal]. Qed.

(** Reading a list at the indices of a permutation of its positions gives
    the same elements, permuted. *)
Lemma lookup_permutation {A : Type} (l : list A) (order : list nat) :
  order ≡ₚ seq 0 (length l) ->
  exists reordered,
    map (fun i => l !! i) order = Some <$> reordered
    /\ reordered ≡ₚ l.
Proof.
  intros Hperm.
  assert (Forall (fun i => i < length l) order) as Hrange.
  { apply Forall_forall. intros i Hi. rewrite Hperm in Hi.
    apply elem_of_seq in Hi. lia. }
  assert (exists reordered, map (fun i => l !! i) order = Some <$> reordered)
    as [reordered Hre].
  { clear Hperm. induction Hrange as [|i order Hi _ [re IH]].
    - by exists [].
    - destruct (lookup_lt_is_Some_2 l i Hi) as [x Hx].
      exists (x :: re). simpl. by rewrite Hx, IH. }
  exists reordered. split; [done|].
  apply (fmap_Permutation (fun i => l !! i)) in Hperm.
  change (map (λ i, l !! i) order ≡ₚ map (λ i, l !! i) (seq 0 (length l)))
    in Hperm.
  rewrite Hre, lookup_seq_range in Hperm.
  apply (omap_Permutation (fun x : option A => x)) in Hperm.
  by rewrite !omap_fmap_Some in Hperm.
Qed.

Lemma optimizeRouteOrder_few (places : list Stop) (travelMode : string)
  (response : RoutesResponse) :
  length (List.filter hasPlaceId places) < 3 ->
  exists error message,
    optimizeRouteOrder places travelMode response
    = Unoptimized
        (if length (List.filter hasPlaceId places) =? 2
         then List.filter hasPlaceId places
         else places)
        error message.
Proof.
  intros Hfew. unfold optimizeRouteOrder.
  pose proof (filter_length_le hasPlaceId places) as Hle.
  destruct (length places <? 2) eqn:Hshort.
  { apply Nat.ltb_lt in Hshort.
    destruct (length (List.filter hasPlaceId places) =? 2) eqn:H2;
      [apply Nat.eqb_eq in H2; lia | eauto]. }
  destruct (length (List.filter hasPlaceId places) <? 2) eqn:Hlt.
  { apply Nat.ltb_lt in Hlt.
    destruct (length (List.filter hasPlaceId places) =? 2) eqn:H2;
      [apply Nat.eqb_eq in H2; lia | eauto]. }
  apply Nat.ltb_ge in Hlt.
  destruct (length (List.filter hasPlaceId places) =? 2) eqn:H2;
    [eauto | apply Nat.eqb_neq in H2; lia].
Qed.

(** C8, as stated, fails: of three stops, two with an identifier, the
    stop without one is dropped from the returned list. *)
Lemma C8_dropped_stop_counterexample :
  ~ (forall (places : list Stop) (travelMode : string)
       (response : RoutesResponse),
        length (List.filter hasPlaceId places) < 3 ->
        optimized (optimizeRouteOrder places travelMode response) = false
        /\ resultPlaces (optimizeRouteOrder places travelMode response)
           = Some <$> places).
Proof.
  intros Hclaim.
  destruct (Hclaim [RouteSamples.identified "a"; RouteSamples.anonymous "b";
                    RouteSamples.identified "c"]
              "WALK" (RoutesThrown "unused")
              ltac:(vm_compute; lia)) as [_ Hplaces].
  vm_compute in Hplaces. discriminate Hplaces.
Qed.

(** C8, amended. With fewer than 3 stops that have an identifier the
    sequencer reports [optimized = false].  With fewer than 2 such stops
    the returned list is the input list; with exactly 2 it is the list of
    those 2 stops, in their input order, and the stops without an
    identifier are left out; so the returned list is always a sublist of
    the input, and is the input when every stop has an identifier. *)
Theorem C8_few_identified_stops (places : list Stop) (travelMode : string)
  (response : RoutesResponse) :
  length (List.filter hasPlaceId places) < 3 ->
  optimized (optimizeRouteOrder places travelMode response) = false
  /\ (length (List.filter hasPlaceId places) < 2 ->
      resultPlaces (optimizeRouteOrder places travelMode response)
      = Some <$> places)
  /\ (length (List.filter hasPlaceId places) = 2 ->
      resultPlaces (optimizeRouteOrder places travelMode response)
      = Some <$> List.filter hasPlaceId places)
  /\ (Forall (fun place => hasPlaceId place = true) places ->
      resultPlaces (optimizeRouteOrder places travelMode response)
      = Some <$> places)
  /\ exists kept,
       resultPlaces (optimizeRouteOrder places travelMode response)
       = Some <$> kept
       /\ sublist kept places.
Proof.
  intros Hfew.
  destruct (optimizeRouteOrder_few places travelMode response Hfew)
    as (error & message & ->).
  simpl. split; [done|]. split; [|split; [|split]].
  - intros Hlt.
    destruct (length (List.filter hasPlaceId places) =? 2) eqn:H2;
      [apply Nat.eqb_eq in H2; lia | done].
  - by intros ->.
  - intros Hall. rewrite (filter_all _ _ Hall). by destruct (_ =? _).
  - destruct (_ =? _); eexists; (split; [reflexivity|]);
      [apply filter_sublist | done].
Qed.

Lemma C8_few_identified_witness :
  optimized
    (optimizeRouteOrder
       [RouteSamples.identified "a"; RouteSamples.anonymous "b";
        RouteSamples.identified "c"] "WALK" (RoutesThrown "unused"))
  = false
  /\ resultPlaces
       (optimizeRouteOrder
          [RouteSamples.identified "a"; RouteSamples.anonymous "b";
           RouteSamples.identified "c"] "WALK" (RoutesThrown "unused"))
     = [Some (RouteSamples.identified "a");
        Some (RouteSamples.identified "c")].
Proof.
  destruct (C8_few_identified_stops
              [RouteSamples.identified "a"; RouteSamples.anonymous "b";
               RouteSamples.identified "c"] "WALK" (RoutesThrown "unused")
              ltac:(vm_compute; lia)) as (Hflag & _ & Htwo & _).
  split; [exact Hflag|]. exact (Htwo eq_refl).
Defined.

(** C7. With at least 3 stops that have an identifier, and an answer
    whose index list is a permutation of the positions of the
    intermediates, the sequencer returns the origin, then the
    intermediate at each index of the answer in turn, then the
    destination: the intermediates, permuted. *)
Theorem C7_permutation_reorders_intermediates (places : list Stop)
  (travelMode : string) (route : Route) (rest : list Route)
  (order : list nat) :
  3 <= length (List.filter hasPlaceId places) ->
  optimizedIntermediateWaypointIndex route = Some order ->
  order ≡ₚ seq 0 (length (sliceInner (List.filter hasPlaceId places))) ->
  exists origin destination reordered,
    List.filter hasPlaceId places !! 0 = Some origin
    /\ last (List.filter hasPlaceId places) = Some destination
    /\ optimizeRouteOrder places travelMode
         (RoutesHttpOk (Some (route :: rest)))
       = Optimized (Some <$> (origin :: reordered ++ [destination])) order
    /\ map (fun index => sliceInner (List.filter hasPlaceId places) !! index)
         order
       = Some <$> reordered
    /\ reordered ≡ₚ sliceInner (List.filter hasPlaceId places).
Proof.
  intros Hlen Horder Hperm.
  pose proof (filter_length_le hasPlaceId places) as Hle.
  destruct (lookup_permutation _ _ Hperm) as (reordered & Hre & Hreperm).
  destruct (lookup_lt_is_Some_2 (List.filter hasPlaceId places) 0
              ltac:(lia)) as [origin Horigin].
  destruct (lookup_lt_is_Some_2 (List.filter hasPlaceId places)
              (length (List.filter hasPlaceId places) - 1)
              ltac:(lia)) as [destination Hdest].
  exists origin, destination, reordered.
  split; [done|]. split.
  { rewrite last_lookup.
    by replace (pred (length (List.filter hasPlaceId places)))
      with (length (List.filter hasPlaceId places) - 1) by lia. }
  split; [|done].
  unfold optimizeRouteOrder.
  destruct (length places <? 2) eqn:H1; [apply Nat.ltb_lt in H1; lia|].
  destruct (length (List.filter hasPlaceId places) <? 2) eqn:H2;
    [apply Nat.ltb_lt in H2; lia|].
  destruct (length (List.filter hasPlaceId places) =? 2) eqn:H3;
    [apply Nat.eqb_eq in H3; lia|].
  rewrite Horder, Horigin, Hdest, Hre.
  by rewrite fmap_cons, fmap_app.
Qed.

Lemma C7_permutation_witness :
  optimizeRouteOrder RouteSamples.fiveStops "WALK"
    (RouteSamples.answer [2; 0; 1])
  = Optimized
      [Some (RouteSamples.identified "a");
       Some (RouteSamples.identified "d");
       Some (RouteSamples.identified "b");
       Some (RouteSamples.identified "c");
       Some (RouteSamples.identified "e")]
      [2; 0; 1].
Proof.
  destruct (C7_permutation_reorders_intermediates RouteSamples.fiveStops
              "WALK"
              {| optimizedIntermediateWaypointIndex := Some [2; 0; 1];
                 duration := Some "1830s"; distanceMeters := Some 2100%Q |}
              [] [2; 0; 1]
              ltac:(vm_compute; lia) eq_refl
              ltac:(vm_compute;
                    apply (Permutation_cons_app [0; 1] [] 2);
                    reflexivity))
    as (origin & destination & reordered & Horigin & Hdest & Hresult & Hre
        & _).
  vm_compute in Horigin, Hdest, Hre.
  injection Horigin as <-. injection Hdest as <-.
  destruct reordered as [|r0 [|r1 [|r2 [|? ?]]]]; try discriminate Hre.
  injection Hre as <- <- <-.
  exact Hresult.
Defined.

(** ** The links *)

Lemma prefix_app (t s q : string) :
  String.prefix t s = true -> String.prefix t (s +:+ q) = true.
Proof.
  revert s. induction t as [|c t IH]; intros s.
  { intros _. by destruct (s +:+ q). }
  destruct s as [|d s]; simpl; [done|].
  destruct (ascii_dec c d); [apply IH | done].
Qed.

Lemma prefix_refl (t : string) : String.prefix t t = true.
Proof.
  induction t as [|c t IH]; simpl; [done|].
  by destruct (ascii_dec c c).
Qed.

Lemma includes_cons (c : ascii) (s t : string) :
  includes (String c s) t = String.prefix t (String c s) || includes s t.
Proof. reflexivity. Qed.

Lemma includes_nil (t : string) :
  includes "" t = String.prefix t "" || false.
Proof. reflexivity. Qed.

Lemma includes_refl (t : string) : includes t t = true.
Proof.
  destruct t as [|c t]; [done|]. by rewrite includes_cons, prefix_refl.
Qed.

Lemma includes_app_l (s t q : string) :
  includes s t = true -> includes (s +:+ q) t = true.
Proof.
  induction s as [|c s IH].
  - rewrite includes_nil, orb_false_r. intros Ht.
    destruct t; [apply includes_empty | done].
  - change (String c s +:+ q) with (String c (s +:+ q)).
    rewrite !includes_cons. intros [Hp|Hi]%orb_true_iff.
    + apply (prefix_app t (String c s) q) in Hp.
      change (String c s +:+ q) with (String c (s +:+ q)) in Hp.
      by rewrite Hp.
    + rewrite (IH Hi). apply orb_true_r.
Qed.

Lemma includes_app_r (p s t : string) :
  includes s t = true -> includes (p +:+ s) t = true.
Proof.
  intros Hs. induction p as [|c p IH]; [done|].
  change (String c p +:+ s) with (String c (p +:+ s)).
  rewrite includes_cons, IH. apply orb_true_r.
Qed.

Lemma last_default {A : Type} (l : list A) (d : A) :
  l <> [] -> last l = Some (List.last l d).
Proof.
  induction l as [|x [|y l] IH]; intros Hne; [done | done |].
  rewrite last_cons_cons. by apply IH.
Qed.

Section Links.
Variable numberToString : Q -> string.

Lemma endpointParam_address (key : string) (place : Stop) (a : string) :
  addressOf place = Some a ->
  endpointParam numberToString key place = "&" +:+ key +:+ "=" +:+ urlEncode a.
Proof. unfold endpointParam. by intros ->. Qed.

Lemma endpointParam_location (key : string) (place : Stop) (l : Location) :
  addressOf place = None -> EnhancedPlace.location place = Some l ->
  endpointParam numberToString key place
  = "&" +:+ key +:+ "=" +:+ showLocation numberToString l.
Proof. unfold endpointParam. by intros -> ->. Qed.

Lemma assembledUrl_endpoints (utm mode : string) (origin destination : Stop)
  (places : list Stop) :
  includes (assembledUrl numberToString utm mode origin destination places)
    (endpointParam numberToString "origin" origin) = true
  /\ includes (assembledUrl numberToString utm mode origin destination places)
       (endpointParam numberToString "destination" destination) = true.
Proof.
  unfold assembledUrl. split.
  - do 4 apply includes_app_l. apply includes_app_r, includes_refl.
  - do 3 apply includes_app_l. apply includes_app_r, includes_refl.
Qed.

Lemma simplifiedUrl_endpoints (utm mode : string)
  (origin destination : Stop) :
  includes (simplifiedUrl numberToString utm mode origin destination)
    (endpointParam numberToString "origin" origin) = true
  /\ includes (simplifiedUrl numberToString utm mode origin destination)
       (endpointParam numberToString "destination" destination) = true.
Proof.
  unfold simplifiedUrl. split.
  - do 2 apply includes_app_l. apply includes_app_r, includes_refl.
  - apply includes_app_l, includes_app_r, includes_refl.
Qed.

(** What the shared body returns for a list that is not empty. *)
Lemma mapsUrl_spec (utm : string) (origin : Stop) (rest : list Stop)
  (travelMode : string) :
  let places := origin :: rest in
  let destination := List.last places origin in
  let mode := modeOf travelMode in
  exists url,
    mapsUrl numberToString utm places travelMode = Some url
    /\ (2048 < String.length
                 (assembledUrl numberToString utm mode origin destination
                    places) ->
        url = simplifiedUrl numberToString utm mode origin destination)
    /\ (String.length
          (assembledUrl numberToString utm mode origin destination places)
        <= 2048 ->
        url = assembledUrl numberToString utm mode origin destination places)
    /\ includes url (endpointParam numberToString "origin" origin) = true
    /\ includes url (endpointParam numberToString "destination" destination)
       = true.
Proof.
  intros places destination mode. subst places destination mode.
  unfold mapsUrl. cbv zeta.
  match goal with
  | |- context [2048 <? ?n] => destruct (2048 <? n) eqn:Hlong
  end.
  - apply Nat.ltb_lt in Hlong. eexists. split; [reflexivity|].
    split; [done|]. split; [lia|]. apply simplifiedUrl_endpoints.
  - apply Nat.ltb_ge in Hlong. eexists. split; [reflexivity|].
    split; [lia|]. split; [done|]. apply assembledUrl_endpoints.
Qed.

Lemma endpointParam_carries (url key : string) (place : Stop) :
  includes url (endpointParam numberToString key place) = true ->
  carries numberToString url key place.
Proof.
  unfold carries, endpointValue, endpointParam. intros Hin value.
  destruct (addressOf place);
    [|destruct (EnhancedPlace.location place)]; [| |done];
    by intros [= <-].
Qed.

(** What either generator returns for a list that is not empty. *)
Lemma generator_spec (utm : string) (places : list Stop)
  (travelMode : string) :
  places <> [] ->
  exists origin destination url,
    head places = Some origin
    /\ last places = Some destination
    /\ mapsUrl numberToString utm places travelMode = Some url
    /\ (2048 < String.length
                 (assembledUrl numberToString utm
                    (modeOf travelMode)
                    origin destination places) ->
        url = simplifiedUrl numberToString utm
                (modeOf travelMode)
                origin destination)
    /\ carries numberToString url "origin" origin
    /\ carries numberToString url "destination" destination.
Proof.
  intros Hne. destruct places as [|origin rest]; [done|].
  destruct (mapsUrl_spec utm origin rest travelMode)
    as (url & Hurl & Hlong & _ & Horigin & Hdest).
  exists origin, (List.last (origin :: rest) origin), url.
  split; [done|]. split.
  { by apply last_default. }
  split; [done|]. split; [done|].
  split; by apply endpointParam_carries.
Qed.

End Links.

(** C9, as stated, fails: a first and a last stop known by their
    identifier only are named in the link with every parameter, by
    [origin_place_id] and [destination_place_id]; that link is longer
    than 2048 units, and the simplified link returned in its place names
    neither. *)
Lemma C9_dropped_endpoints_counterexample :
  ~ (forall (numberToString : Q -> string) (places : list Stop)
       (travelMode : string) (origin destination : Stop),
        head places = Some origin ->
        last places = Some destination ->
        exists link,
          generateOptimizedMapsUrl numberToString places travelMode
          = Some link
          /\ (includes
                (assembledUrl numberToString optimizedUtm
                   (modeOf travelMode) origin destination places)
                "&origin" = true ->
              includes link "&origin" = true)
          /\ (includes
                (assembledUrl numberToString optimizedUtm
                   (modeOf travelMode) origin destination places)
                "&destination" = true ->
              includes link "&destination" = true)).
Proof.
  intros Hclaim.
  destruct (Hclaim LinkSamples.showInteger LinkSamples.idOnlyEnds "WALK"
              (LinkSamples.idOnly "o") (LinkSamples.idOnly "d")
              eq_refl eq_refl) as (link & Hlink & Horigin & _).
  vm_compute in Hlink. injection Hlink as <-.
  specialize (Horigin ltac:(vm_compute; reflexivity)).
  vm_compute in Horigin. discriminate Horigin.
Qed.

(** C9, amended. For a list of stops that is not empty, each of the two
    generators returns a link, the same at every run; when the link with
    every parameter is longer than 2048 units the result is the
    simplified link; and in either case the link carries, as its origin,
    the encoded address or else the coordinates of the first stop when
    that stop has one of them, and likewise the last stop's as its
    destination. *)
Theorem C9_links_keep_origin_and_destination (numberToString : Q -> string)
  (places : list Stop) (travelMode : string) :
  places <> [] ->
  exists origin destination optimizedLink standardLink,
    head places = Some origin
    /\ last places = Some destination
    /\ (forall link,
          generateOptimizedMapsUrl numberToString places travelMode
          = Some link <-> link = optimizedLink)
    /\ (forall link,
          generateGoogleMapsUrl numberToString places travelMode
          = Some link <-> link = standardLink)
    /\ (2048 < String.length
                 (assembledUrl numberToString optimizedUtm
                    (modeOf travelMode)
                    origin destination places) ->
        optimizedLink
        = simplifiedUrl numberToString optimizedUtm
            (modeOf travelMode) origin destination)
    /\ (2048 < String.length
                 (assembledUrl numberToString standardUtm
                    (modeOf travelMode)
                    origin destination places) ->
        standardLink
        = simplifiedUrl numberToString standardUtm
            (modeOf travelMode) origin destination)
    /\ carries numberToString optimizedLink "origin" origin
    /\ carries numberToString optimizedLink "destination" destination
    /\ carries numberToString standardLink "origin" origin
    /\ carries numberToString standardLink "destination" destination.
Proof.
  intros Hne.
  destruct (generator_spec numberToString optimizedUtm places travelMode Hne)
    as (origin & destination & link1 & Hhead & Hlast & Hlink1 & Hlong1
        & Ho1 & Hd1).
  destruct (generator_spec numberToString standardUtm places travelMode Hne)
    as (origin' & destination' & link2 & Hhead' & Hlast' & Hlink2 & Hlong2
        & Ho2 & Hd2).
  rewrite Hhead in Hhead'. injection Hhead' as <-.
  rewrite Hlast in Hlast'. injection Hlast' as <-.
  exists origin, destination, link1, link2.
  unfold generateOptimizedMapsUrl, generateGoogleMapsUrl.
  rewrite Hlink1, Hlink2.
  repeat split; try done; by intros [= ->] || by intros ->.
Qed.

Lemma C9_long_link_witness :
  exists link,
    generateOptimizedMapsUrl LinkSamples.showInteger LinkSamples.longRoute
      "WALK" = Some link
    /\ String.length link < 2048
    /\ includes link ("&origin=a" +:+ LinkSamples.filler 700) = true
    /\ includes link ("&destination=d" +:+ LinkSamples.filler 700) = true.
Proof.
  destruct (C9_links_keep_origin_and_destination LinkSamples.showInteger
              LinkSamples.longRoute "WALK" ltac:(discriminate))
    as (origin & destination & link & _ & Hhead & Hlast & Hlink & _ & Hlong
        & _ & Ho & Hd & _).
  injection Hhead as <-. injection Hlast as <-.
  exists link. split; [by apply Hlink|].
  split.
  - rewrite Hlong; vm_compute; lia.
  - split; [apply Ho | apply Hd]; vm_compute; reflexivity.
Defined.

(** * Further properties *)

(** ** More on the similarity *)

(** X1. The similarity does not depend on the order of its two
    arguments. *)
Theorem X1_similarity_symmetric (a b : string) :
  calculateStringSimilarity a b = calculateStringSimilarity b a.
Proof.
  destruct (decide (a = b)) as [->|Hab]; [done|].
  destruct (decide (a = "")) as [->|Ha].
  { unfold calculateStringSimilarity.
    apply String.eqb_neq in Hab. rewrite Hab, String.eqb_sym, Hab.
    simpl. by rewrite orb_true_r. }
  destruct (decide (b = "")) as [->|Hb].
  { unfold calculateStringSimilarity.
    apply String.eqb_neq in Hab. rewrite Hab, String.eqb_sym, Hab.
    simpl. by rewrite orb_true_r. }
  rewrite !similarity_unfold by done.
  by rewrite editDistance_sym, Nat.max_comm.
Qed.

Lemma charAt_inj_get (a b : string) (i j : nat) :
  i < String.length a -> charAt a i = charAt b j ->
  String.get i a = String.get j b.
Proof.
  unfold charAt. intros Hi.
  destruct (String.get i a) as [c|] eqn:Ha.
  - destruct (String.get j b); [by intros [= ->] | done].
  - revert i Hi Ha. induction a as [|c a IH]; intros i Hi Ha;
      [simpl in Hi; lia|].
    destruct i as [|i]; [done|]. simpl in *. apply (IH i); [lia | done].
Qed.

(** A distance of 0 between two prefixes: they have the same length and
    the same units. *)
Lemma lev_zero (a b : string) (i : nat) :
  forall j, lev a b i j = 0 ->
    i = j /\ forall k, k < i -> charAt a k = charAt b k.
Proof.
  induction i as [|i IH]; intros j.
  - rewrite lev_0_l. intros ->. split; [done | lia].
  - destruct j as [|j]; [by rewrite lev_0_r|].
    rewrite lev_S_S. intros H.
    assert (lev a b i j = 0 /\ substitutionCost a b i j = 0) as [H0 Hc] by lia.
    destruct (IH j H0) as [-> Hk]. split; [done|].
    intros k Hlt. destruct (decide (k = j)) as [->|Hne]; [|apply Hk; lia].
    unfold substitutionCost in Hc.
    destruct (String.eqb (charAt a j) (charAt b j)) eqn:He; [|done].
    by apply String.eqb_eq in He.
Qed.

Lemma string_ext (a : string) :
  forall b, String.length a = String.length b ->
    (forall k, k < String.length a -> String.get k a = String.get k b) ->
    a = b.
Proof.
  induction a as [|c a IH]; intros [|d b] Hlen Hget; simpl in *;
    try done.
  f_equal.
  - specialize (Hget 0 ltac:(lia)). simpl in Hget. congruence.
  - apply IH; [lia|]. intros k Hk. apply (Hget (S k)). lia.
Qed.

Lemma editDistance_zero (a b : string) : editDistance a b = 0 -> a = b.
Proof.
  unfold editDistance. intros H.
  destruct (lev_zero a b _ _ H) as [Hlen Hk].
  apply string_ext; [done|].
  intros k Hlt. apply charAt_inj_get; [done | by apply Hk].
Qed.

(** X2. Two strings are at similarity 1 exactly when they are the same
    string. *)
Theorem X2_similarity_one_iff_equal (a b : string) :
  (calculateStringSimilarity a b == 1)%Q <-> a = b.
Proof.
  split.
  - intros Hsim. destruct (decide (a = b)) as [|Hab]; [done|]. exfalso.
    destruct (decide (a = "")) as [->|Ha].
    { unfold calculateStringSimilarity in Hsim.
      apply String.eqb_neq in Hab. rewrite Hab in Hsim. simpl in Hsim.
      discriminate Hsim. }
    destruct (decide (b = "")) as [->|Hb].
    { unfold calculateStringSimilarity in Hsim.
      apply String.eqb_neq in Hab. rewrite Hab in Hsim.
      rewrite orb_true_r in Hsim. discriminate Hsim. }
    rewrite similarity_unfold in Hsim by done.
    assert (0 < editDistance a b) as Hd.
    { destruct (editDistance a b) eqn:Hz; [|lia].
      by apply editDistance_zero in Hz. }
    assert (0 < Nat.max (String.length a) (String.length b)) as Hm.
    { destruct a; [done|]. simpl. lia. }
    pose proof (Qnat_pos _ Hd) as Hd'. pose proof (Qnat_pos _ Hm) as Hm'.
    assert (0 < Qnat (editDistance a b)
                / Qnat (Nat.max (String.length a) (String.length b)))%Q.
    { apply Qlt_shift_div_l; [done | lra]. }
    lra.
  - intros ->. unfold calculateStringSimilarity.
    by rewrite String.eqb_refl.
Qed.

Lemma X2_similarity_one_witness :
  (calculateStringSimilarity "Torre" "Torre" == 1)%Q.
Proof. exact (proj2 (X2_similarity_one_iff_equal "Torre" "Torre") eq_refl). Defined.

(** ** More on the score *)

Lemma score_bounds (originalPlace : LlmPlace) (apiPlace : ApiPlace)
  (city : string) (v : Q) :
  calculateMatchConfidence originalPlace apiPlace city = Ok v ->
  (0 <= v <= 1)%Q.
Proof.
  intros Hv.
  destruct (calculateMatchConfidence_Ok_inv _ _ _ _ Hv) as [apiName Hname].
  destruct (calculateMatchConfidence_sum originalPlace apiPlace city apiName
              Hname) as (v' & Hv' & Hsum).
  rewrite Hv in Hv'. injection Hv' as <-. rewrite Hsum.
  pose proof (nameMatch_bounds (toLowerCase (name originalPlace)) apiName).
  pose proof (tokenOverlapBonus_bounds
                (toLowerCase (name originalPlace)) apiName).
  pose proof (otherSignals_bounds apiPlace city).
  split; [|apply Q.le_min_r].
  apply Q.min_glb; [|lra]. destruct (exactMatch _ _); lra.
Qed.

(** X3. A candidate whose name equals the mention's name after case
    folding scores at least 0.6, whatever its address, status and
    ratings. *)
Theorem X3_exact_match_scores_at_least_06 (originalPlace : LlmPlace)
  (apiPlace : ApiPlace) (city : string) :
  apiNameOf apiPlace = Ok (toLowerCase (name originalPlace)) ->
  exists v,
    calculateMatchConfidence originalPlace apiPlace city = Ok v
    /\ (0.6 <= v <= 1)%Q.
Proof.
  intros Hname.
  destruct (calculateMatchConfidence_sum originalPlace apiPlace city _ Hname)
    as (v & Hv & Hsum).
  exists v. split; [done|]. split; [|by apply (score_bounds _ _ _ _ Hv)].
  rewrite Hsum. unfold nameMatch, exactMatch. rewrite String.eqb_refl.
  pose proof (otherSignals_bounds apiPlace city).
  apply Q.min_glb; lra.
Qed.

Lemma X3_exact_match_witness :
  exists v,
    calculateMatchConfidence (Samples.mention "Torre de Belem")
      (Samples.bare (NameLocalized (Some "TORRE DE BELEM"))) "Porto" = Ok v
    /\ (0.6 <= v <= 1)%Q.
Proof.
  exact (X3_exact_match_scores_at_least_06 (Samples.mention "Torre de Belem")
           (Samples.bare (NameLocalized (Some "TORRE DE BELEM"))) "Porto"
           eq_refl).
Defined.

(** ** More on the best match *)

Lemma findBestMatch_choice_loop (originalPlace : LlmPlace) (city : string)
  (rest : list ApiPlace) :
  forall seen bestMatch best,
    bestOf originalPlace city seen bestMatch ->
    (0 <= BestMatch.confidence bestMatch)%Q ->
    forOf (considerCandidate originalPlace city) rest bestMatch = Ok best ->
    bestOf originalPlace city (seen ++ rest) best.
Proof.
  induction rest as [|apiPlace rest IH]; intros seen bestMatch best Hinv Hnn.
  - simpl. intros [= <-]. by rewrite app_nil_r.
  - simpl. unfold considerCandidate at 1.
    destruct (calculateMatchConfidence originalPlace apiPlace city)
      as [v|msg] eqn:Hscore; simpl; [|done].
    replace (seen ++ apiPlace :: rest)%list
      with ((seen ++ [apiPlace]) ++ rest)%list
      by (by rewrite <- app_assoc).
    destruct Hinv as [Hmax Hplace].
    destruct (Qgt_bool v (BestMatch.confidence bestMatch)) eqn:Hgt.
    + apply Qgt_bool_true in Hgt. apply IH; [|simpl; lra].
      split; simpl.
      * intros a w [Ha| ->%list_elem_of_singleton]%elem_of_app Hw.
        -- specialize (Hmax a w Ha Hw). lra.
        -- rewrite Hscore in Hw. injection Hw as <-. lra.
      * exists apiPlace. split; [apply elem_of_app; right; by left|].
        split; [done|]. split; [done | lra].
    + apply Qgt_bool_false in Hgt. apply IH; [|done].
      split.
      * intros a w [Ha| ->%list_elem_of_singleton]%elem_of_app Hw.
        -- by apply (Hmax a w Ha).
        -- rewrite Hscore in Hw. by injection Hw as <-.
      * destruct (BestMatch.place bestMatch) as [chosen|]; [|done].
        destruct Hplace as (a & Ha & Hch & Hsc & Hpos).
        exists a. split; [apply elem_of_app; by left | done].
Qed.

Lemma findBestMatch_choice (originalPlace : LlmPlace)
  (apiResults : list ApiPlace) (city : string) (best : BestMatch.t) :
  findBestMatch originalPlace apiResults city = Ok best ->
  bestOf originalPlace city apiResults best.
Proof.
  intros Hbest.
  apply (findBestMatch_choice_loop originalPlace city apiResults []
           initialBestMatch best); [|simpl; lra | done].
  split; [|done]. intros a v Ha. by apply elem_of_nil in Ha.
Qed.

(** X4. When [findBestMatch] returns, no candidate scores more than the
    confidence it reports.  If it reports a place, that place is built
    from a candidate of the search whose score is this confidence, and
    the confidence is above 0; if it reports none, the confidence is
    0. *)
Theorem X4_best_match_is_a_maximum (originalPlace : LlmPlace)
  (apiResults : list ApiPlace) (city : string) (best : BestMatch.t) :
  findBestMatch originalPlace apiResults city = Ok best ->
  bestOf originalPlace city apiResults best.
Proof. apply findBestMatch_choice. Qed.

Lemma X4_best_match_witness :
  exists best,
    findBestMatch (Samples.mention "Museum")
      [Samples.bare (NameLocalized (Some "xyz"));
       Samples.bare (NameLocalized (Some "Museum"));
       Samples.bare (NameLocalized (Some "MUSEUM"))] "Porto" = Ok best
    /\ bestOf (Samples.mention "Museum") "Porto"
         [Samples.bare (NameLocalized (Some "xyz"));
          Samples.bare (NameLocalized (Some "Museum"));
          Samples.bare (NameLocalized (Some "MUSEUM"))] best
    /\ BestMatch.place best
       = Some (toVerifiedPlace (Samples.bare (NameLocalized (Some "Museum")))).
Proof.
  eexists. split; [vm_compute; reflexivity|]. split.
  - apply X4_best_match_is_a_maximum. vm_compute. reflexivity.
  - reflexivity.
Defined.

(** ** More on [verifyPlace] *)

Lemma bestOf_confidence_bounds (originalPlace : LlmPlace) (city : string)
  (seen : list ApiPlace) (best : BestMatch.t) :
  bestOf originalPlace city seen best ->
  (0 <= BestMatch.confidence best <= 1)%Q.
Proof.
  intros [_ Hplace]. destruct (BestMatch.place best).
  - destruct Hplace as (a & _ & _ & Hscore & _).
    by apply score_bounds in Hscore.
  - rewrite Hplace. lra.
Qed.

(** X5. The confidence of every result of [verifyPlace] lies between 0
    and 1.  A verified result has no error, a confidence above 0.3 and
    a resolved place; it comes from a search that returned candidates,
    and its alternatives are the first three of them at most, in the
    order of the search. *)
Theorem X5_verified_result_is_resolved (place : LlmPlace) (city : string)
  (response : SearchResponse) :
  (0 <= VerificationResult.confidence (verifyPlace place city response)
   <= 1)%Q
  /\ VerificationResult.originalPlace (verifyPlace place city response)
     = place
  /\ (VerificationResult.verified (verifyPlace place city response) = true ->
      VerificationResult.error (verifyPlace place city response) = None
      /\ (0.3 < VerificationResult.confidence
                  (verifyPlace place city response))%Q
      /\ is_Some (VerificationResult.verifiedPlace
                    (verifyPlace place city response))
      /\ exists results,
           response = SearchHttpOk (Some results)
           /\ VerificationResult.alternativeMatches
                (verifyPlace place city response)
              = Some (take 3 results)).
Proof.
  destruct response as [msg|status text|[results|]];
    try (simpl; split; [lra|]; split; done).
  destruct results as [|apiPlace rest];
    [simpl; split; [lra|]; split; done|].
  unfold verifyPlace.
  destruct (findBestMatch place (apiPlace :: rest) city) as [best|msg]
    eqn:Hbest; [|simpl; split; [lra|]; split; done].
  pose proof (findBestMatch_choice _ _ _ _ Hbest) as Hof.
  pose proof (bestOf_confidence_bounds _ _ _ _ Hof) as Hb.
  simpl. split; [done|]. split; [done|].
  intros Hv%Qgt_bool_true. split; [done|]. split; [done|]. split.
  - destruct Hof as [_ Hplace].
    destruct (BestMatch.place best); [eauto|]. rewrite Hplace in Hv. lra.
  - eauto.
Qed.

Lemma X5_verified_result_witness :
  VerificationResult.error
    (verifyPlace (Samples.mention "Museum") "Porto"
       (SearchHttpOk
          (Some [Samples.bare (NameLocalized (Some "National Museum"))])))
  = None.
Proof.
  destruct (X5_verified_result_is_resolved (Samples.mention "Museum") "Porto"
              (SearchHttpOk
                 (Some [Samples.bare
                          (NameLocalized (Some "National Museum"))])))
    as (_ & _ & Hverified).
  exact (proj1 (Hverified eq_refl)).
Defined.

(** X6. A mention is verified as soon as the search returns candidates
    that can all be scored and one of them bears the mention's name, up
    to case. *)
Theorem X6_exact_name_is_verified (place : LlmPlace) (city : string)
  (results : list ApiPlace) (apiPlace : ApiPlace) :
  Forall (scorable place city) results ->
  apiPlace ∈ results ->
  apiNameOf apiPlace = Ok (toLowerCase (name place)) ->
  VerificationResult.verified
    (verifyPlace place city (SearchHttpOk (Some results))) = true.
Proof.
  intros Hall Hin Hname.
  destruct results as [|first rest]; [by apply elem_of_nil in Hin|].
  unfold verifyPlace.
  pose proof (findBestMatch_spec place city (first :: rest)) as Hspec.
  destruct (findBestMatch place (first :: rest) city) as [best|msg] eqn:Hbest;
    [|done].
  simpl. apply Qgt_bool_true.
  destruct (findBestMatch_choice _ _ _ _ Hbest) as [Hmax _].
  destruct (calculateMatchConfidence_sum place apiPlace city _ Hname)
    as (v & Hv & Hsum).
  specialize (Hmax apiPlace v Hin Hv).
  assert (0.6 <= v)%Q; [|lra].
  rewrite Hsum. unfold nameMatch, exactMatch. rewrite String.eqb_refl.
  pose proof (otherSignals_bounds apiPlace city).
  apply Q.min_glb; lra.
Qed.

Lemma X6_exact_name_witness :
  VerificationResult.verified
    (verifyPlace (Samples.mention "Museum") "Porto"
       (SearchHttpOk
          (Some [Samples.bare (NameLocalized (Some "xyz"));
                 Samples.bare (NameLocalized (Some "MUSEUM"))])))
  = true.
Proof.
  apply (X6_exact_name_is_verified (Samples.mention "Museum") "Porto" _
           (Samples.bare (NameLocalized (Some "MUSEUM")))).
  - repeat constructor; eexists; vm_compute; reflexivity.
  - apply list_elem_of_In. right. left. reflexivity.
  - reflexivity.
Defined.

(** ** More on the batch *)

(** X7. The summary of a batch adds up: the total is the number of
    mentions, the verified and the unverified places make the total, and
    both counts are between 0 and the total.  For a batch that is not
    empty the rate is a number between 0 and 100.  There is one result
    and one enhanced place per mention. *)
Theorem X7_summary_adds_up (mentions : list LlmPlace) (city : string)
  (search : nat -> SearchResponse) :
  exists results summary enhanced,
    verifyAllPlaces {| places := Some mentions; city := city |} search
    = BatchSuccess results summary enhanced
    /\ length results = length mentions
    /\ length enhanced = length mentions
    /\ totalPlaces summary = length mentions
    /\ verifiedPlaces summary <= totalPlaces summary
    /\ (Z.of_nat (verifiedPlaces summary) + unverifiedPlaces summary
        = Z.of_nat (totalPlaces summary))%Z
    /\ (0 <= unverifiedPlaces summary)%Z
    /\ (mentions <> [] ->
        exists rate, verificationRate summary = Finite rate
                     /\ (0 <= rate <= 100)%Q).
Proof.
  eexists _, _, _. split; [reflexivity|].
  set (results := imap _ mentions).
  assert (length results = length mentions) as Hlen by apply length_imap.
  pose proof (filter_length_le VerificationResult.verified results) as Hle.
  split; [done|]. split; [by rewrite length_map|].
  unfold summarize. simpl. fold results.
  split; [done|]. split; [done|]. split; [lia|]. split; [lia|].
  intros Hne.
  assert (0 < length results) as Hpos.
  { rewrite Hlen. destruct mentions; [done | simpl; lia]. }
  unfold divideCounts.
  destruct (length results =? 0) eqn:H0; [apply Nat.eqb_eq in H0; lia|].
  eexists. split; [reflexivity|].
  pose proof (ratio_bounds _ _ Hpos Hle). lra.
Qed.

Lemma X7_summary_witness :
  exists results summary enhanced,
    verifyAllPlaces
      {| places := Some BatchSamples.mentions; city := "Porto" |}
      BatchSamples.search
    = BatchSuccess results summary enhanced
    /\ exists rate, verificationRate summary = Finite rate
                    /\ (0 <= rate <= 100)%Q.
Proof.
  destruct (X7_summary_adds_up BatchSamples.mentions "Porto"
              BatchSamples.search)
    as (results & summary & enhanced & Hbatch & _ & _ & _ & _ & _ & _
        & Hrate).
  exists results, summary, enhanced. split; [exact Hbatch|].
  apply Hrate. discriminate.
Defined.

(** ** More on the sequencer *)

Lemma optimizeRouteOrder_cases (places : list Stop) (travelMode : string)
  (response : RoutesResponse) :
  let placesWithIds := List.filter hasPlaceId places in
  match indexAnswer response with
  | Some order =>
      if length placesWithIds <? 3
      then exists kept error message,
             optimizeRouteOrder places travelMode response
             = Unoptimized kept error message
             /\ (kept = places \/ kept = placesWithIds)
      else optimizeRouteOrder places travelMode response
           = Optimized
               (placesWithIds !! 0
                :: map (fun index => sliceInner placesWithIds !! index) order
                ++ [placesWithIds !! (length placesWithIds - 1)])
               order
  | None =>
      exists kept error message,
        optimizeRouteOrder places travelMode response
        = Unoptimized kept error message
        /\ (kept = places \/ kept = placesWithIds)
  end.
Proof.
  intros placesWithIds. unfold optimizeRouteOrder. fold placesWithIds.
  pose proof (filter_length_le hasPlaceId places) as Hle.
  fold placesWithIds in Hle.
  destruct (length places <? 2) eqn:H1.
  { apply Nat.ltb_lt in H1.
    assert ((length placesWithIds <? 3) = true) as -> by (apply Nat.ltb_lt; lia).
    destruct (indexAnswer response); eauto 10. }
  destruct (length placesWithIds <? 2) eqn:H2.
  { apply Nat.ltb_lt in H2.
    assert ((length placesWithIds <? 3) = true) as -> by (apply Nat.ltb_lt; lia).
    destruct (indexAnswer response); eauto 10. }
  destruct (length placesWithIds =? 2) eqn:H3.
  { apply Nat.eqb_eq in H3.
    assert ((length placesWithIds <? 3) = true) as -> by (apply Nat.ltb_lt; lia).
    destruct (indexAnswer response); eauto 10. }
  apply Nat.ltb_ge in H2. apply Nat.eqb_neq in H3.
  assert ((length placesWithIds <? 3) = false) as -> by (apply Nat.ltb_ge; lia).
  destruct response as [msg|status text|[[|route rest]|]]; simpl;
    eauto 10.
  destruct (optimizedIntermediateWaypointIndex route); eauto 10.
Qed.

(** X8. The sequencer reports an optimized order exactly when at least 3
    stops have an identifier and the routing service answered with a
    route that carries an index list. *)
Theorem X8_optimized_iff_index_answer (places : list Stop)
  (travelMode : string) (response : RoutesResponse) :
  optimized (optimizeRouteOrder places travelMode response) = true
  <-> 3 <= length (List.filter hasPlaceId places)
      /\ is_Some (indexAnswer response).
Proof.
  pose proof (optimizeRouteOrder_cases places travelMode response) as H.
  simpl in H. destruct (indexAnswer response) as [order|].
  - destruct (length (List.filter hasPlaceId places) <? 3) eqn:H3.
    + apply Nat.ltb_lt in H3. destruct H as (k & e & m & -> & _).
      simpl. split; [done | lia].
    + apply Nat.ltb_ge in H3. rewrite H. simpl. split; [eauto | done].
  - destruct H as (k & e & m & -> & _). simpl.
    split; [done | by intros [_ [? ?]]].
Qed.

Lemma X8_optimized_witness :
  optimized
    (optimizeRouteOrder RouteSamples.fiveStops "WALK"
       (RouteSamples.answer [2; 0; 1]))
  = true.
Proof.
  apply (proj2 (X8_optimized_iff_index_answer RouteSamples.fiveStops "WALK"
                  (RouteSamples.answer [2; 0; 1]))).
  split; [vm_compute; lia | by eexists].
Defined.

(** X9. Whatever the routing service answers, a result that is not
    optimized holds stops of the input only, in the order of the input:
    the input itself, or its stops that have an identifier. *)
Theorem X9_fallback_keeps_input_order (places : list Stop)
  (travelMode : string) (response : RoutesResponse) :
  optimized (optimizeRouteOrder places travelMode response) = false ->
  exists kept error message,
    optimizeRouteOrder places travelMode response
    = Unoptimized kept error message
    /\ (kept = places \/ kept = List.filter hasPlaceId places)
    /\ sublist kept places.
Proof.
  pose proof (optimizeRouteOrder_cases places travelMode response) as H.
  simpl in H. intros Hopt.
  assert (exists kept error message,
            optimizeRouteOrder places travelMode response
            = Unoptimized kept error message
            /\ (kept = places \/ kept = List.filter hasPlaceId places))
    as (kept & error & message & Hr & Hkept).
  { destruct (indexAnswer response) as [order|]; [|done].
    destruct (length (List.filter hasPlaceId places) <? 3); [done|].
    rewrite H in Hopt. done. }
  exists kept, error, message. split; [done|]. split; [done|].
  destruct Hkept as [-> | ->]; [done | apply filter_sublist].
Qed.

Lemma X9_fallback_witness :
  exists kept error message,
    optimizeRouteOrder RouteSamples.fiveStops "WALK"
      (RoutesHttpError 429 "quota")
    = Unoptimized kept error message
    /\ sublist kept RouteSamples.fiveStops.
Proof.
  destruct (X9_fallback_keeps_input_order RouteSamples.fiveStops "WALK"
              (RoutesHttpError 429 "quota") eq_refl)
    as (kept & error & message & Hr & _ & Hsub).
  by exists kept, error, message.
Defined.

(** X10. An optimized result has two stops more than the answer has
    indices: the first stop with an identifier, then one entry per index,
    then the last stop with an identifier.  The entry of an index is
    [undefined] exactly when the index is not a position of the
    intermediates; no check is made that the indices are a
    permutation. *)
Theorem X10_optimized_shape (places : list Stop) (travelMode : string)
  (response : RoutesResponse) (result : list (option Stop))
  (order : list nat) :
  optimizeRouteOrder places travelMode response = Optimized result order ->
  indexAnswer response = Some order
  /\ length result = length order + 2
  /\ result !! 0 = Some (List.filter hasPlaceId places !! 0)
  /\ is_Some (List.filter hasPlaceId places !! 0)
  /\ last result = Some (last (List.filter hasPlaceId places))
  /\ is_Some (last (List.filter hasPlaceId places))
  /\ forall k index,
       order !! k = Some index ->
       result !! (S k)
       = Some (sliceInner (List.filter hasPlaceId places) !! index)
       /\ (sliceInner (List.filter hasPlaceId places) !! index = None
           <-> length (List.filter hasPlaceId places) - 2 <= index).
Proof.
  pose proof (optimizeRouteOrder_cases places travelMode response) as H.
  simpl in H. intros Hr.
  destruct (indexAnswer response) as [order'|];
    [|destruct H as (? & ? & ? & H & _); congruence].
  destruct (length (List.filter hasPlaceId places) <? 3) eqn:H3;
    [destruct H as (? & ? & ? & H & _); congruence|].
  apply Nat.ltb_ge in H3. rewrite H in Hr. injection Hr as <- <-.
  set (ids := List.filter hasPlaceId places) in *.
  split; [done|]. split.
  { simpl. rewrite length_app, length_map. simpl. lia. }
  split; [done|]. split; [apply lookup_lt_is_Some_2; lia|]. split.
  { rewrite app_comm_cons, last_snoc. f_equal. rewrite last_lookup.
    f_equal. lia. }
  split.
  { rewrite last_lookup. apply lookup_lt_is_Some_2. lia. }
  intros k index Hk. split.
  - simpl. rewrite lookup_app_l
      by (rewrite length_map; by apply lookup_lt_Some in Hk).
    by rewrite list_lookup_fmap, Hk.
  - rewrite lookup_ge_None. unfold sliceInner.
    rewrite length_drop, length_take. lia.
Qed.

Lemma X10_optimized_shape_witness :
  optimizeRouteOrder RouteSamples.fiveStops "WALK"
    (RouteSamples.answer [7; 0])
  = Optimized
      [Some (RouteSamples.identified "a"); None;
       Some (RouteSamples.identified "b");
       Some (RouteSamples.identified "e")]
      [7; 0]
  /\ sliceInner (List.filter hasPlaceId RouteSamples.fiveStops) !! 7 = None.
Proof.
  assert (optimizeRouteOrder RouteSamples.fiveStops "WALK"
            (RouteSamples.answer [7; 0])
          = Optimized
              [Some (RouteSamples.identified "a"); None;
               Some (RouteSamples.identified "b");
               Some (RouteSamples.identified "e")]
              [7; 0]) as Hrun by (vm_compute; reflexivity).
  split; [exact Hrun|].
  destruct (X10_optimized_shape _ _ _ _ _ Hrun)
    as (_ & _ & _ & _ & _ & _ & Hentries).
  apply (proj2 (Hentries 0 7 eq_refl)). vm_compute. lia.
Defined.

(** ** The trip statistics *)


Lemma pretty_N_char_digit (d : N) :
  (d < 10)%N ->
  isDecimalDigit (pretty_N_char d) = true
  /\ digitValue 10 (pretty_N_char d) = Some (N.to_nat d).
Proof.
  intros Hd.
  assert (d = 0 \/ d = 1 \/ d = 2 \/ d = 3 \/ d = 4 \/ d = 5 \/ d = 6
          \/ d = 7 \/ d = 8 \/ d = 9)%N as Hcases by lia.
  repeat (destruct Hcases as [->|Hcases]; [by vm_compute|]).
  subst. by vm_compute.
Qed.

Lemma pretty_N_go_digits (x : N) :
  forall s, allUnits isDecimalDigit s = true ->
    allUnits isDecimalDigit (pretty_N_go x s) = true.
Proof.
  induction (N.lt_wf_0 x) as [x _ IH]. intros s Hs.
  destruct (decide (x = 0)%N) as [->|Hx]; [by rewrite pretty_N_go_0|].
  rewrite pretty_N_go_step by lia.
  apply IH; [apply N.div_lt; lia|]. simpl. rewrite Hs, andb_true_r.
  apply pretty_N_char_digit, N.mod_lt. lia.
Qed.

Lemma parseDigits_cons (radix : nat) (acc : Z) (c : ascii) (s : string) :
  parseDigits radix acc (String c s)
  = match digitValue radix c with
    | Some d => parseDigits radix (acc * Z.of_nat radix + Z.of_nat d) s
    | None => acc
    end.
Proof. reflexivity. Qed.

(** Reading back what [pretty] printed. *)
Lemma parseDigits_pretty_N_go (x : N) :
  exists k : nat, forall acc s,
    parseDigits 10 acc (pretty_N_go x s)
    = parseDigits 10 (acc * 10 ^ Z.of_nat k + Z.of_N x)%Z s.
Proof.
  induction (N.lt_wf_0 x) as [x _ IH].
  destruct (decide (x = 0)%N) as [->|Hx].
  { exists 0. intros acc s. rewrite pretty_N_go_0. f_equal. simpl. lia. }
  destruct (IH (x `div` 10)%N) as [k Hk]; [apply N.div_lt; lia|].
  exists (S k). intros acc s.
  rewrite pretty_N_go_step, Hk by lia.
  destruct (pretty_N_char_digit (x `mod` 10)%N) as [_ Hv];
    [apply N.mod_lt; lia|].
  rewrite parseDigits_cons, Hv. f_equal.
  rewrite (Nat2Z.inj_succ k), Z.pow_succ_r by lia.
  pose proof (N.div_mod x 10 ltac:(lia)) as Hdm.
  rewrite N_nat_Z.
  assert (Z.of_N x = 10 * Z.of_N (x `div` 10) + Z.of_N (x `mod` 10))%Z
    as -> by lia.
  change (Z.of_nat 10) with 10%Z. ring.
Qed.

Lemma pretty_nat_digits (n : nat) :
  allUnits isDecimalDigit (pretty n) = true
  /\ pretty n <> ""
  /\ parseDigits 10 0 (pretty n) = Z.of_nat n.
Proof.
  unfold pretty, pretty_nat, pretty, pretty_N.
  destruct (decide (N.of_nat n = 0)%N) as [H0|H0].
  { split; [done|]. split; [done|]. simpl. lia. }
  split; [by apply pretty_N_go_digits|]. split.
  - rewrite pretty_N_go_step by lia. intros Hempty.
    pose proof (f_equal String.length Hempty) as Hlen. simpl in Hlen.
    assert (forall x s, String.length s
                        <= String.length (pretty_N_go x s)) as Hmono.
    { clear. intros x. induction (N.lt_wf_0 x) as [x _ IH]. intros s.
      destruct (decide (x = 0)%N) as [->|Hx]; [by rewrite pretty_N_go_0|].
      rewrite pretty_N_go_step by lia.
      etrans; [|apply IH; apply N.div_lt; lia]. simpl. lia. }
    specialize (Hmono (N.of_nat n `div` 10)%N
                  (String (pretty_N_char (N.of_nat n `mod` 10)) "")).
    simpl in Hmono. lia.
  - destruct (parseDigits_pretty_N_go (N.of_nat n)) as [k Hk].
    rewrite Hk. simpl. lia.
Qed.

Lemma string_app_empty_r (s : string) : s +:+ "" = s.
Proof.
  induction s as [|c s IH]; [done|].
  change (String c s +:+ "") with (String c (s +:+ "")). by rewrite IH.
Qed.

Lemma removeFirst_absent (c : ascii) (s rest : string) :
  allUnits (fun d => negb (Ascii.eqb d c)) s = true ->
  removeFirst c (s +:+ String c rest) = s +:+ rest.
Proof.
  induction s as [|d s IH]; simpl.
  - by rewrite Ascii.eqb_refl.
  - intros [Hd Hs]%andb_true_iff. apply negb_true_iff in Hd.
    by rewrite Hd, IH.
Qed.

Lemma allUnits_impl (p q : ascii -> bool) (s : string) :
  (forall c, p c = true -> q c = true) ->
  allUnits p s = true -> allUnits q s = true.
Proof.
  intros Hpq. induction s as [|c s IH]; simpl; [done|].
  intros [Hc Hs]%andb_true_iff. by rewrite (Hpq c Hc), IH.
Qed.

Lemma digit_facts (c : ascii) :
  isDecimalDigit c = true ->
  isWhiteSpace c = false
  /\ c <> "-"%char /\ c <> "+"%char /\ c <> "x"%char /\ c <> "X"%char
  /\ c <> "s"%char
  /\ is_Some (digitValue 10 c).
Proof.
  destruct c as [[] [] [] [] [] [] [] []]; vm_compute; intros H;
    try discriminate H; repeat split; (discriminate || eauto).
Qed.

(** [parseInt] on a numeral of decimal digits. *)
Lemma parseInt_decimal (s : string) :
  s <> "" -> allUnits isDecimalDigit s = true ->
  parseInt s = Integer (parseDigits 10 0 s).
Proof.
  destruct s as [|c s]; [done|]. intros _. simpl.
  intros [Hc Hs]%andb_true_iff.
  destruct (digit_facts c Hc) as (Hws & Hminus & Hplus & _ & _ & _ & Hv).
  unfold parseInt. simpl trimStart. rewrite Hws.
  assert (readSign (String c s) = (1%Z, String c s)) as ->.
  { unfold readSign.
    destruct c as [[] [] [] [] [] [] [] []]; try done. }
  assert (forall marker : ascii,
            marker = "x"%char \/ marker = "X"%char ->
            startsWith (String c s) (String "0" (String marker "")) = false)
    as Hprefix.
  { intros marker Hmarker. unfold startsWith.
    cbn [String.prefix]. destruct (ascii_dec "0" c); [|done].
    destruct s as [|d s]; [done|]. simpl in Hs.
    apply andb_true_iff in Hs as [Hd _].
    destruct (digit_facts d Hd) as (_ & _ & _ & Hx & HX & _).
    cbn [String.prefix]. destruct (ascii_dec marker d); [|done].
    destruct Hmarker; congruence. }
  rewrite (Hprefix "x"%char), (Hprefix "X"%char) by auto. simpl orb.
  cbv iota.
  destruct Hv as [v Hv]. rewrite Hv. f_equal.
  rewrite Z.mul_1_l. by rewrite parseDigits_cons, Hv.
Qed.

(** X11. For a duration of the form the routing service gives, the
    decimal digits of a number of seconds below 2^32 followed by [s],
    the total duration is that number; the walking time is absent for 0 seconds,
    and otherwise the number of minutes nearest to it, a half going up,
    followed by the word minutes.  Without a duration both are absent. *)
Theorem X11_duration_is_read_back (intermediates : list Stop)
  (route : Route) (order : list nat) (seconds : nat) :
  (Z.of_nat seconds < 2 ^ 32)%Z ->
  duration route = Some (pretty seconds +:+ "s") ->
  Optimization.totalDuration (statistics intermediates route order)
  = Some (Integer (Z.of_nat seconds))
  /\ Optimization.estimatedWalkingTime (statistics intermediates route order)
     = (if seconds =? 0 then None
        else Some (pretty (roundedMinutes (Z.of_nat seconds))
                   +:+ " minutes"))
  /\ (-30 <= Z.of_nat seconds - 60 * roundedMinutes (Z.of_nat seconds)
      < 30)%Z.
Proof.
  intros _ Hd.
  destruct (pretty_nat_digits seconds) as (Hdigits & Hne & Hvalue).
  assert (totalDurationOf route = Some (Integer (Z.of_nat seconds))) as Ht.
  { unfold totalDurationOf. rewrite Hd.
    assert (truthy (pretty seconds +:+ "s") = true) as ->.
    { destruct (pretty seconds); [done | by vm_compute]. }
    f_equal.
    replace (removeFirst "s" (pretty seconds +:+ "s"))
      with (pretty seconds +:+ "").
    2:{ symmetry. apply removeFirst_absent.
        apply (allUnits_impl isDecimalDigit); [|done].
        intros c Hc. apply negb_true_iff, Ascii.eqb_neq.
        by destruct (digit_facts c Hc) as (_ & _ & _ & _ & _ & ? & _). }
    rewrite string_app_empty_r.
    by rewrite parseInt_decimal, Hvalue. }
  unfold statistics. simpl. rewrite Ht. split; [done|]. split.
  - destruct seconds as [|n]; [done|].
    unfold estimatedWalkingTimeOf.
    assert ((Z.of_nat (S n) =? 0)%Z = false) as ->
        by (apply Z.eqb_neq; lia).
    done.
  - unfold roundedMinutes.
    pose proof (Z.div_mod (Z.of_nat seconds + 30) 60 ltac:(lia)).
    pose proof (Z.mod_pos_bound (Z.of_nat seconds + 30) 60 ltac:(lia)).
    lia.
Qed.

Lemma X11_duration_witness :
  Optimization.totalDuration
    (statistics []
       {| optimizedIntermediateWaypointIndex := Some [];
          duration := Some "1830s"; distanceMeters := None |} [])
  = Some (Integer 1830)
  /\ Optimization.estimatedWalkingTime
       (statistics []
          {| optimizedIntermediateWaypointIndex := Some [];
             duration := Some "1830s"; distanceMeters := None |} [])
     = Some "31 minutes".
Proof.
  destruct (X11_duration_is_read_back []
              {| optimizedIntermediateWaypointIndex := Some [];
                 duration := Some "1830s"; distanceMeters := None |}
              [] 1830 eq_refl eq_refl)
    as (Htotal & Htime & _).
  split; [exact Htotal | exact Htime].
Defined.

(** ** More on the links *)







Lemma modeOf_values (travelMode : string) :
  inheritedProperties !! travelMode = None ->
  modeOf travelMode ∈ linkModes
  /\ (modeMap !! travelMode = None -> modeOf travelMode = "walking").
Proof.
  intros Hinherited. unfold modeOf. rewrite Hinherited.
  destruct (modeMap !! travelMode) as [mode|] eqn:Hmode;
    [|split; [by apply list_elem_of_In; left | done]].
  split; [|done].
  apply elem_of_list_to_map_2 in Hmode.
  repeat (apply elem_of_cons in Hmode as [[= _ ->]|Hmode];
          [apply list_elem_of_In; simpl; tauto|]).
  by apply elem_of_nil in Hmode.
Qed.

Lemma prefix_of_app (p rest : string) : String.prefix p (p +:+ rest) = true.
Proof. apply prefix_app, prefix_refl. Qed.

Lemma length_app_string (s t : string) :
  String.length (s +:+ t) = String.length s + String.length t.
Proof.
  induction s as [|c s IH]; [done|].
  change (String c s +:+ t) with (String c (s +:+ t)). simpl. by rewrite IH.
Qed.

Section MoreLinks.
Variable numberToString : Q -> string.

Lemma mapsUrl_head (utm : string) (places : list Stop)
  (travelMode url : string) :
  mapsUrl numberToString utm places travelMode = Some url ->
  String.prefix
    (baseUrl +:+ "&travelmode=" +:+ modeOf travelMode)
    url = true.
Proof.
  unfold mapsUrl. destruct places as [|origin rest]; [done|]. cbv zeta.
  match goal with
  | |- context [2048 <? ?n] => destruct (2048 <? n)
  end; intros [= <-].
  - unfold simplifiedUrl. do 3 apply prefix_app. apply prefix_refl.
  - unfold assembledUrl. do 5 apply prefix_app. apply prefix_refl.
Qed.

Lemma mapsUrl_length (utm : string) (origin : Stop) (rest : list Stop)
  (travelMode url : string) :
  mapsUrl numberToString utm (origin :: rest) travelMode = Some url ->
  String.length url
  <= String.length
       (assembledUrl numberToString utm
          (modeOf travelMode) origin
          (List.last (origin :: rest) origin) (origin :: rest))
  /\ (2048 < String.length url ->
      url = simplifiedUrl numberToString utm
              (modeOf travelMode) origin
              (List.last (origin :: rest) origin)).
Proof.
  unfold mapsUrl. cbv zeta.
  generalize (List.last (origin :: rest) origin). intros destination.
  match goal with
  | |- context [2048 <? ?n] => destruct (2048 <? n) eqn:Hlong
  end; intros [= <-].
  - split; [|done]. unfold simplifiedUrl, assembledUrl. cbv zeta.
    rewrite !length_app_string. lia.
  - apply Nat.ltb_ge in Hlong. split; [done | lia].
Qed.

End MoreLinks.

(** X13. The link of either generator starts with the address of the
    directions service and a travel mode.  Unless the mode asked for is
    the name of a property that every object inherits, the travel mode
    of the link is one of walking, driving, transit and bicycling, and
    it is walking when the mode asked for is not in the table. *)
Theorem X13_link_head (numberToString : Q -> string) (places : list Stop)
  (travelMode url : string) :
  generateOptimizedMapsUrl numberToString places travelMode = Some url
  \/ generateGoogleMapsUrl numberToString places travelMode = Some url ->
  exists mode,
    String.prefix
      ("https://www.google.com/maps/dir/?api=1&travelmode=" +:+ mode) url
    = true
    /\ (inheritedProperties !! travelMode = None ->
        mode ∈ linkModes
        /\ (modeMap !! travelMode = None -> mode = "walking")).
Proof.
  intros Hurl. exists (modeOf travelMode). split.
  - destruct Hurl as [Hurl|Hurl];
      apply (mapsUrl_head numberToString _ _ _ _ Hurl).
  - apply modeOf_values.
Qed.

Lemma X13_link_head_witness :
  exists url,
    generateOptimizedMapsUrl LinkSamples.showInteger RouteSamples.fiveStops
      "HOVERCRAFT" = Some url
    /\ String.prefix
         "https://www.google.com/maps/dir/?api=1&travelmode=walking" url
       = true.
Proof.
  destruct (generateOptimizedMapsUrl LinkSamples.showInteger
              RouteSamples.fiveStops "HOVERCRAFT") as [url|] eqn:Hurl;
    [|vm_compute in Hurl; discriminate Hurl].
  exists url. split; [reflexivity|].
  destruct (X13_link_head LinkSamples.showInteger RouteSamples.fiveStops
              "HOVERCRAFT" url (or_introl Hurl))
    as (mode & Hprefix & Hmode).
  destruct (Hmode ltac:(vm_compute; reflexivity)) as [_ Hwalking].
  rewrite (Hwalking ltac:(vm_compute; reflexivity)) in Hprefix.
  exact Hprefix.
Defined.

(** X14. The link returned is never longer than the link with every
    parameter, and a link longer than 2048 units is only ever returned
    when it is the simplified one: the length check is not repeated on
    the fallback. *)
Theorem X14_link_length (numberToString : Q -> string) (origin : Stop)
  (rest : list Stop) (travelMode url : string) :
  generateOptimizedMapsUrl numberToString (origin :: rest) travelMode
  = Some url ->
  String.length url
  <= String.length
       (assembledUrl numberToString optimizedUtm
          (modeOf travelMode) origin
          (List.last (origin :: rest) origin) (origin :: rest))
  /\ (2048 < String.length url ->
      url = simplifiedUrl numberToString optimizedUtm
              (modeOf travelMode) origin
              (List.last (origin :: rest) origin)).
Proof.
  intros Hurl.
  exact (mapsUrl_length numberToString optimizedUtm origin rest travelMode
           url Hurl).
Qed.

Lemma X14_link_length_witness :
  exists url,
    generateOptimizedMapsUrl LinkSamples.showInteger LinkSamples.longRoute
      "WALK" = Some url
    /\ String.length url
       <= String.length
            (assembledUrl LinkSamples.showInteger optimizedUtm
               (modeOf "WALK")
               (LinkSamples.farStop "a")
               (List.last LinkSamples.longRoute (LinkSamples.farStop "a"))
               LinkSamples.longRoute).
Proof.
  destruct (generateOptimizedMapsUrl LinkSamples.showInteger
              LinkSamples.longRoute "WALK") as [url|] eqn:Hurl;
    [|vm_compute in Hurl; discriminate Hurl].
  exists url. split; [reflexivity|].
  exact (proj1 (X14_link_length LinkSamples.showInteger
                  (LinkSamples.farStop "a")
                  [LinkSamples.farStop "b"; LinkSamples.farStop "c";
                   LinkSamples.farStop "d"] "WALK" url Hurl)).
Defined.

(** ** The payload for the routing service *)

Lemma ends_and_inner {A : Type} (first : A) (xs : list A) :
  2 <= length (first :: xs) ->
  first :: sliceInner (first :: xs) ++ [List.last (first :: xs) first]
  = first :: xs.
Proof.
  intros Hlen. f_equal. unfold sliceInner.
  destruct (exists_last (l := xs)) as (inner & final & ->).
  { intros ->. simpl in Hlen. lia. }
  rewrite app_comm_cons, List.last_last.
  replace (length ((first :: inner) ++ [final]) - 1)
    with (length (first :: inner)) by (rewrite length_app; simpl; lia).
  by rewrite take_app_length.
Qed.

(** X15. The payload is [null] exactly when fewer than two places have
    both coordinates, and neither of them 0.  Otherwise its origin, its
    intermediates and its destination are the coordinates of those
    places, all of them and in their order; and tolls and highways are
    avoided and the order optimized whatever the preferences say, also
    when they say [false]. *)
Theorem X15_payload_keeps_located_places (now : string)
  (places : list Stop) (preferences : option RoutePreferences) :
  (convertToGoogleRoutesFormat now places preferences = None
   <-> length (omap located places) < 2)
  /\ forall payload,
       convertToGoogleRoutesFormat now places preferences = Some payload ->
       RoutesPayload.origin payload
       :: RoutesPayload.intermediates payload
          ++ [RoutesPayload.destination payload]
       = omap located places
       /\ RoutesPayload.avoidHighways payload = true
       /\ RoutesPayload.avoidTolls payload = true
       /\ RoutesPayload.optimizeWaypointOrder payload = true
       /\ RoutesPayload.travelMode payload <> "".
Proof.
  unfold convertToGoogleRoutesFormat. cbv zeta.
  destruct (length (omap located places) <? 2) eqn:Hfew.
  { apply Nat.ltb_lt in Hfew. split; [done | by intros payload]. }
  apply Nat.ltb_ge in Hfew.
  destruct (omap located places) as [|origin rest] eqn:Hlocated;
    [simpl in Hfew; lia|].
  split; [split; [done | lia]|].
  intros payload [= <-]. cbn [RoutesPayload.origin RoutesPayload.destination
    RoutesPayload.intermediates RoutesPayload.avoidHighways
    RoutesPayload.avoidTolls RoutesPayload.optimizeWaypointOrder
    RoutesPayload.travelMode].
  split; [by apply ends_and_inner|].
  assert (forall x, orTrue x = true) as HorTrue by (by intros [[]|]).
  rewrite !HorTrue. repeat split.
  unfold travelModeOf, stringOrNull.
  destruct (preferences ≫= travel_mode) as [mode|]; [|done].
  destruct mode; done.
Qed.

Lemma X15_payload_witness :
  exists payload,
    convertToGoogleRoutesFormat "2024-05-01T10:00:00.000Z"
      PayloadSamples.stops (Some PayloadSamples.asIs)
    = Some payload
    /\ RoutesPayload.intermediates payload = []
    /\ RoutesPayload.avoidHighways payload = true
    /\ RoutesPayload.optimizeWaypointOrder payload = true.
Proof.
  destruct (convertToGoogleRoutesFormat "2024-05-01T10:00:00.000Z"
              PayloadSamples.stops (Some PayloadSamples.asIs))
    as [payload|] eqn:Hpayload; [|vm_compute in Hpayload; discriminate].
  exists payload. split; [reflexivity|].
  destruct (X15_payload_keeps_located_places "2024-05-01T10:00:00.000Z"
              PayloadSamples.stops (Some PayloadSamples.asIs))
    as [_ Hshape].
  destruct (Hshape payload Hpayload) as (_ & Hhighways & _ & Horder & _).
  split; [|split; [exact Hhighways | exact Horder]].
  vm_compute in Hpayload. injection Hpayload as <-. reflexivity.
Defined.

(** ** The cleaning of the model's text *)

Lemma trimStart_blank (w s : string) :
  allUnits isWhiteSpace w = true -> trimStart (w +:+ s) = trimStart s.
Proof.
  induction w as [|c w IH]; [done|]. simpl.
  intros [Hc Hw]%andb_true_iff. rewrite Hc. by apply IH.
Qed.

Lemma trimEnd_blank_only (w : string) :
  allUnits isWhiteSpace w = true -> trimEnd w = "".
Proof.
  induction w as [|c w IH]; [done|]. simpl.
  intros [Hc Hw]%andb_true_iff. by rewrite (IH Hw), Hc.
Qed.

Lemma trimEnd_blank (w s : string) :
  allUnits isWhiteSpace w = true -> trimEnd (s +:+ w) = trimEnd s.
Proof.
  intros Hw. induction s as [|c s IH].
  - by apply trimEnd_blank_only.
  - change (String c s +:+ w) with (String c (s +:+ w)). simpl.
    by rewrite IH.
Qed.

Lemma trimStart_length (s : string) :
  String.length (trimStart s) <= String.length s.
Proof.
  induction s as [|c s IH]; [done|]. simpl.
  destruct (isWhiteSpace c); simpl; lia.
Qed.

Lemma trimEnd_length (s : string) :
  String.length (trimEnd s) <= String.length s.
Proof.
  induction s as [|c s IH]; [done|]. simpl.
  destruct (trimEnd s); [destruct (isWhiteSpace c)|]; simpl in *; lia.
Qed.

(** A string that [trim] leaves alone is left alone by both of its
    halves, and is empty or starts with a unit that is not white
    space. *)
Lemma trim_fixed (s : string) :
  trim s = s ->
  trimEnd s = s
  /\ match s with
     | EmptyString => True
     | String c _ => isWhiteSpace c = false
     end.
Proof.
  unfold trim. intros Hs.
  assert (trimStart s = s) as Hstart.
  { pose proof (trimEnd_length (trimStart s)) as Hend.
    rewrite Hs in Hend. destruct s as [|c s]; [done|]. simpl in *.
    destruct (isWhiteSpace c); [|done].
    pose proof (trimStart_length s). lia. }
  rewrite Hstart in Hs. split; [done|].
  destruct s as [|c s]; [done|]. simpl in Hstart.
  destruct (isWhiteSpace c); [|done].
  pose proof (trimStart_length s) as Hlen. rewrite Hstart in Hlen.
  simpl in Hlen. lia.
Qed.

Lemma trimEnd_closed (s : string) (c : ascii) :
  isWhiteSpace c = false ->
  trimEnd (s +:+ String c "") = s +:+ String c "".
Proof.
  intros Hc. induction s as [|d s IH].
  - simpl. by rewrite Hc.
  - change (String d s +:+ String c "")
      with (String d (s +:+ String c "")).
    simpl. rewrite IH. by destruct s.
Qed.

Lemma app_assoc_string (s t u : string) :
  (s +:+ t) +:+ u = s +:+ (t +:+ u).
Proof.
  induction s as [|c s IH]; [done|].
  change ((String c s +:+ t) +:+ u) with (String c ((s +:+ t) +:+ u)).
  by rewrite IH.
Qed.

Lemma withoutSuffix_app (p s : string) :
  p <> "" -> withoutSuffix p (s +:+ p) = Some s.
Proof.
  intros Hp. induction s as [|c s IH].
  - change ("" +:+ p) with p. destruct p as [|d p]; [done|].
    cbn [withoutSuffix]. by rewrite String.eqb_refl.
  - change (String c s +:+ p) with (String c (s +:+ p)).
    cbn [withoutSuffix].
    destruct (String.eqb (String c (s +:+ p)) p) eqn:Heq.
    + apply String.eqb_eq in Heq.
      pose proof (f_equal String.length Heq) as Hlen. simpl in Hlen.
      rewrite length_app_string in Hlen. lia.
    + by rewrite IH.
Qed.

(** The text between a pair of fences, white space around it aside. *)
Lemma unwrap_body (lead body trail : string) :
  allUnits isWhiteSpace lead = true ->
  allUnits isWhiteSpace trail = true ->
  trim body = body ->
  stripClosing (trimStart (lead +:+ body +:+ trail +:+ fence)) = body.
Proof.
  intros Hlead Htrail Hbody. rewrite trimStart_blank by done.
  destruct (trim_fixed body Hbody) as [Hend Hfirst].
  destruct body as [|c body].
  - change ("" +:+ trail +:+ fence) with (trail +:+ fence).
    rewrite trimStart_blank by done. by vm_compute.
  - change (String c body +:+ trail +:+ fence)
      with (String c (body +:+ trail +:+ fence)).
    cbn [trimStart]. rewrite Hfirst.
    change (String c (body +:+ trail +:+ fence))
      with (String c body +:+ trail +:+ fence).
    unfold stripClosing.
    rewrite <- app_assoc_string, withoutSuffix_app by done.
    by rewrite trimEnd_blank.
Qed.

(** The text as [trim] leaves it, for a fenced text with white space
    around it. *)
Lemma trim_fenced (before marker inner after : string) (c : ascii) :
  allUnits isWhiteSpace before = true ->
  allUnits isWhiteSpace after = true ->
  isWhiteSpace c = false ->
  trim (before +:+ String c marker +:+ inner +:+ fence +:+ after)
  = String c marker +:+ inner +:+ fence.
Proof.
  intros Hbefore Hafter Hc. unfold trim.
  rewrite trimStart_blank by done.
  change (String c marker +:+ inner +:+ fence +:+ after)
    with (String c (marker +:+ inner +:+ fence +:+ after)).
  cbn [trimStart]. rewrite Hc.
  change (String c (marker +:+ inner +:+ fence +:+ after))
    with (String c marker +:+ inner +:+ fence +:+ after).
  rewrite <- (app_assoc_string inner), <- (app_assoc_string (String c marker)).
  rewrite trimEnd_blank by done.
  change fence with ("``" +:+ String "`" "").
  rewrite <- !app_assoc_string. by apply trimEnd_closed.
Qed.

Lemma dropUnits_app (marker rest : string) :
  dropUnits (String.length marker) (marker +:+ rest) = rest.
Proof. induction marker as [|c marker IH]; [done | exact IH]. Qed.

Lemma stripOpening_marker (marker rest : string) :
  stripOpening marker (marker +:+ rest) = trimStart rest.
Proof.
  unfold stripOpening, startsWith.
  by rewrite prefix_of_app, dropUnits_app.
Qed.

Lemma prefix_app_both (p q s : string) :
  String.prefix (p +:+ q) (p +:+ s) = String.prefix q s.
Proof.
  induction p as [|c p IH]; [done|].
  change (String c p +:+ q) with (String c (p +:+ q)).
  change (String c p +:+ s) with (String c (p +:+ s)).
  cbn [String.prefix]. by destruct (ascii_dec c c).
Qed.

Lemma append_cons (c : ascii) (s t : string) :
  String c s +:+ t = String c (s +:+ t).
Proof. reflexivity. Qed.

Lemma append_nil (t : string) : "" +:+ t = t.
Proof. reflexivity. Qed.

Lemma prefix_shorter (p q : string) :
  forall s, String.prefix (p +:+ q) s = true -> String.prefix p s = true.
Proof.
  induction p as [|c p IH]; intros s; [by destruct s|].
  rewrite append_cons. destruct s as [|d s]; [done|].
  cbn [String.prefix]. destruct (ascii_dec c d); [apply IH | done].
Qed.

(** White space is none of the letters of [json]. *)
Lemma blank_not_json (c : ascii) :
  isWhiteSpace c = true \/ c = "`"%char ->
  c <> "j"%char /\ c <> "s"%char /\ c <> "o"%char /\ c <> "n"%char.
Proof.
  intros [Hc| ->]; [|by repeat split].
  repeat split; intros ->; by vm_compute in Hc.
Qed.

(** What follows the body, white space and a fence, does not complete
    the word [json]. *)
Lemma json_not_completed (x trail : string) :
  allUnits isWhiteSpace trail = true ->
  startsWith x "json" = false ->
  startsWith (x +:+ trail +:+ fence) "json" = false.
Proof.
  intros Htrail.
  assert (exists c rest, trail +:+ fence = String c rest
                         /\ (isWhiteSpace c = true \/ c = "`"%char))
    as (c & rest & -> & Hc).
  { destruct trail as [|c trail]; [by eexists _, _; split; [|right]|].
    simpl in Htrail. apply andb_true_iff in Htrail as [Hc _].
    eexists _, _. split; [reflexivity | by left]. }
  destruct (blank_not_json c Hc) as (Hj & Hs & Ho & Hn).
  unfold startsWith.
  destruct x as [|c1 [|c2 [|c3 [|c4 x]]]];
    rewrite ?append_cons, ?append_nil; cbn [String.prefix];
    repeat (match goal with
            | |- context [ascii_dec ?a ?b] =>
                destruct (ascii_dec a b); try congruence
            end); try done.
  by destruct x.
Qed.

(** X16. A text with no fence at its start is cleaned by trimming it.
    A text made of a fence [```json], a body and a closing fence, with
    white space anywhere around the three, is cleaned to its body; so is
    one with the plain fence, unless the body follows the fence directly
    and starts with [json]. *)
Theorem X16_fences_are_removed (text before lead body trail after : string) :
  allUnits isWhiteSpace before = true ->
  allUnits isWhiteSpace lead = true ->
  allUnits isWhiteSpace trail = true ->
  allUnits isWhiteSpace after = true ->
  trim body = body ->
  (startsWith (trim text) fence = false -> cleanText text = trim text)
  /\ cleanText (before +:+ jsonFence +:+ lead +:+ body +:+ trail
                +:+ fence +:+ after) = body
  /\ (startsWith (lead +:+ body) "json" = false ->
      cleanText (before +:+ fence +:+ lead +:+ body +:+ trail
                 +:+ fence +:+ after) = body).
Proof.
  intros Hbefore Hlead Htrail Hafter Hbody. split; [|split].
  - unfold cleanText. cbv zeta. intros Hfence.
    assert (startsWith (trim text) jsonFence = false) as ->;
      [|by rewrite Hfence].
    unfold startsWith in *. change jsonFence with (fence +:+ "json").
    destruct (String.prefix (fence +:+ "json") (trim text)) eqn:Hjson;
      [|done].
    by rewrite (prefix_shorter fence "json" _ Hjson) in Hfence.
  - unfold cleanText. cbv zeta.
    pose proof (trim_fenced before "``json" (lead +:+ body +:+ trail) after
                  "`" Hbefore Hafter eq_refl) as Htrim.
    rewrite !app_assoc_string in Htrim.
    change (String "`" "``json") with jsonFence in Htrim.
    rewrite Htrim.
    unfold startsWith at 1. rewrite prefix_of_app.
    rewrite stripOpening_marker. by apply unwrap_body.
  - intros Hjson. unfold cleanText. cbv zeta.
    pose proof (trim_fenced before "``" (lead +:+ body +:+ trail) after
                  "`" Hbefore Hafter eq_refl) as Htrim.
    rewrite !app_assoc_string in Htrim.
    change (String "`" "``") with fence in Htrim.
    rewrite Htrim.
    assert (startsWith (fence +:+ lead +:+ body +:+ trail +:+ fence)
              jsonFence = false) as ->.
    { unfold startsWith. change jsonFence with (fence +:+ "json").
      rewrite prefix_app_both.
      rewrite <- (app_assoc_string lead body).
      by apply json_not_completed. }
    unfold startsWith at 1. rewrite prefix_of_app.
    rewrite stripOpening_marker. by apply unwrap_body.
Qed.

Lemma X16_fences_witness :
  cleanText
    (String (ascii_of_nat 10) "```json"
     +:+ String (ascii_of_nat 10) "{ }"
     +:+ String (ascii_of_nat 10) "```"
     +:+ String (ascii_of_nat 10) "")
  = "{ }".
Proof.
  exact (proj1 (proj2
           (X16_fences_are_removed "" (String (ascii_of_nat 10) "")
              (String (ascii_of_nat 10) "") "{ }"
              (String (ascii_of_nat 10) "") (String (ascii_of_nat 10) "")
              eq_refl eq_refl eq_refl eq_refl eq_refl))).
Defined.

(** ** The stops that the verification produces *)

(** X20. Every enhanced place has an address that is not empty: the
    address of the place kept for the mention, or the words
    [Address not found].  So the link generators never use its
    coordinates, the origin of a link that starts at it is this address
    encoded, and the page always has a link for it. *)
Theorem X20_enhanced_place_has_address (numberToString : Q -> string)
  (result : VerificationResult.t) :
  exists a,
    EnhancedPlace.address (enhance result) = Some a
    /\ a <> ""
    /\ (a = "Address not found"
        \/ exists vp, VerificationResult.verifiedPlace result = Some vp
                      /\ VerifiedPlace.address vp = Some a)
    /\ endpointParam numberToString "origin" (enhance result)
       = "&origin=" +:+ urlEncode a
    /\ waypointString numberToString (enhance result) = urlEncode a
    /\ is_Some (generateIndividualPlaceUrl numberToString (enhance result)).
Proof.
  set (a := default "Address not found"
              (stringOrNull (VerificationResult.verifiedPlace result
                             ≫= VerifiedPlace.address))).
  assert (truthy a = true
          /\ (a = "Address not found"
              \/ exists vp, VerificationResult.verifiedPlace result = Some vp
                            /\ VerifiedPlace.address vp = Some a))
    as [Htruthy Horigin].
  { unfold a, stringOrNull.
    destruct (VerificationResult.verifiedPlace result) as [vp|];
      [|by split; [|left]].
    simpl. destruct (VerifiedPlace.address vp) as [s|] eqn:Hs;
      [|by split; [|left]].
    destruct (truthy s) eqn:Ht; [|by split; [|left]].
    split; [done|]. right. by exists vp. }
  assert (addressOf (enhance result) = Some a) as Haddress.
  { unfold addressOf. cbn [enhance EnhancedPlace.address]. fold a.
    by rewrite Htruthy. }
  exists a. split; [done|]. split; [by destruct a|]. split; [done|].
  unfold endpointParam, waypointString. rewrite Haddress.
  split; [done|]. split; [done|].
  unfold generateIndividualPlaceUrl. rewrite Haddress.
  destruct (hasPlaceId (enhance result)); [eauto|].
  destruct (EnhancedPlace.location (enhance result)); eauto.
Qed.

(** ** The pipeline *)

Lemma verifyAllPlaces_batch (mentions : list LlmPlace) (town : string)
  (search : nat -> SearchResponse) :
  verifyAllPlaces {| places := Some mentions; city := town |} search
  = BatchSuccess
      (imap (fun i place => verifyPlace place town (search i)) mentions)
      (summarize
         (imap (fun i place => verifyPlace place town (search i)) mentions))
      (map enhance
         (imap (fun i place => verifyPlace place town (search i)) mentions)).
Proof. reflexivity. Qed.

Section PipelineFacts.
Variable numberToString : Q -> string.
Variable parseJson : string -> Result GeminiJson.t.
Variable now : string.

(** A request that succeeds went through every stage. *)
Lemma generatePlaces_success_inv (gemini : GeminiOutcome)
  (search : nat -> SearchResponse) (routes : RoutesResponse)
  (data : FinalResponse.t) (payload : option RoutesPayload.t)
  (verification : BatchResult) (optimization : OptimizeResult) :
  generatePlaces numberToString parseJson now gemini search routes
  = GenerateSuccess data payload verification optimization ->
  exists text jsonResponse city mentions,
    gemini = GeminiText text
    /\ accepted parseJson text jsonResponse city mentions
    /\ verifiedStops city mentions search <> []
    /\ verification
       = verifyAllPlaces {| places := Some mentions; city := city |} search
    /\ optimization
       = optimizeRouteOrder (verifiedStops city mentions search)
           (travelModeOf (GeminiJson.route_preferences jsonResponse)) routes
    /\ FinalResponse.city data = city
    /\ payload
       = convertToGoogleRoutesFormat now (FinalResponse.places data)
           (FinalResponse.route_preferences data)
    /\ match optimization with
       | Optimized places _ =>
           mapM (fun place : option Stop => place) places
           = Some (FinalResponse.places data)
           /\ FinalResponse.google_maps_url data
              = generateOptimizedMapsUrl numberToString
                  (FinalResponse.places data)
                  (travelModeOf (GeminiJson.route_preferences jsonResponse))
       | Unoptimized _ _ _ =>
           FinalResponse.places data = verifiedStops city mentions search
           /\ FinalResponse.optimization data = None
           /\ FinalResponse.google_maps_url data
              = generateGoogleMapsUrl numberToString
                  (FinalResponse.places data)
                  (travelModeOf (GeminiJson.route_preferences jsonResponse))
       end.
Proof.
  unfold generatePlaces. destruct gemini as [message|text]; [done|].
  cbv zeta. destruct (looksTruncated (cleanText text)) eqn:Htruncated;
    [done|].
  unfold afterCleaning.
  destruct (parseJson (cleanText text)) as [jsonResponse|message] eqn:Hparse;
    [|done].
  cbn [mbind Result_bind].
  destruct (stringOrNull (GeminiJson.city jsonResponse)) as [city|] eqn:Hcity;
    [|done].
  destruct (GeminiJson.places jsonResponse) as [mentions|] eqn:Hplaces;
    [|done].
  destruct (validatePlaces 0 mentions) as [[]|message] eqn:Hvalid; [|done].
  rewrite verifyAllPlaces_batch. cbn [mbind Result_bind].
  fold (verifiedStops city mentions search).
  destruct (length (verifiedStops city mentions search) =? 0) eqn:Hnone;
    [done|].
  apply Nat.eqb_neq in Hnone.
  destruct (optimizeRouteOrder (verifiedStops city mentions search)
              (travelModeOf (GeminiJson.route_preferences jsonResponse))
              routes) as [kept error message|places order] eqn:Horder.
  - cbn [mbind Result_bind]. intros [= <- <- <- <-].
    exists text, jsonResponse, city, mentions.
    repeat split; try done. by destruct (verifiedStops city mentions search).
  - unfold linkOfOptimized.
    destruct (mapM (fun place : option Stop => place) places)
      as [stops|] eqn:Hstops; [|done].
    cbn [mbind Result_bind]. intros [= <- <- <- <-].
    exists text, jsonResponse, city, mentions.
    repeat split; try done. by destruct (verifiedStops city mentions search).
Qed.

(** With an answer of the routing service that is not an optimized
    order, an accepted text with a verified place is a success, on the
    verified places in the order of the mentions. *)
Lemma generatePlaces_unoptimized (text : string)
  (jsonResponse : GeminiJson.t) (city : string) (mentions : list LlmPlace)
  (search : nat -> SearchResponse) (routes : RoutesResponse) :
  accepted parseJson text jsonResponse city mentions ->
  verifiedStops city mentions search <> [] ->
  optimized
    (optimizeRouteOrder (verifiedStops city mentions search)
       (travelModeOf (GeminiJson.route_preferences jsonResponse)) routes)
  = false ->
  exists data payload,
    generatePlaces numberToString parseJson now (GeminiText text) search
      routes
    = GenerateSuccess data payload
        (verifyAllPlaces {| places := Some mentions; city := city |} search)
        (optimizeRouteOrder (verifiedStops city mentions search)
           (travelModeOf (GeminiJson.route_preferences jsonResponse))
           routes)
    /\ FinalResponse.places data = verifiedStops city mentions search
    /\ FinalResponse.optimization data = None.
Proof.
  intros (Htruncated & Hparse & Hcity & Hplaces & Hvalid) Hsome Hfallback.
  unfold generatePlaces. cbv zeta. rewrite Htruncated.
  unfold afterCleaning. rewrite Hparse. cbn [mbind Result_bind].
  rewrite Hcity, Hplaces, Hvalid.
  rewrite verifyAllPlaces_batch. cbn [mbind Result_bind].
  fold (verifiedStops city mentions search).
  destruct (length (verifiedStops city mentions search) =? 0) eqn:Hnone.
  { apply Nat.eqb_eq in Hnone.
    by destruct (verifiedStops city mentions search). }
  destruct (optimizeRouteOrder (verifiedStops city mentions search)
              (travelModeOf (GeminiJson.route_preferences jsonResponse))
              routes) as [kept error message|places order]; [|done].
  cbn [mbind Result_bind]. by eexists _, _.
Qed.

(** With an optimized order that holds [undefined], the same text is
    reported as an invalid answer of the model. *)
Lemma generatePlaces_undefined_stop (text : string)
  (jsonResponse : GeminiJson.t) (city : string) (mentions : list LlmPlace)
  (search : nat -> SearchResponse) (routes : RoutesResponse)
  (places : list (option Stop)) (order : list nat) :
  accepted parseJson text jsonResponse city mentions ->
  verifiedStops city mentions search <> [] ->
  optimizeRouteOrder (verifiedStops city mentions search)
    (travelModeOf (GeminiJson.route_preferences jsonResponse)) routes
  = Optimized places order ->
  None ∈ places ->
  generatePlaces numberToString parseJson now (GeminiText text) search routes
  = GenerateFailure
      ("Invalid JSON response from AI: " +:+ readingAddressOfUndefined)
      (Some text).
Proof.
  intros (Htruncated & Hparse & Hcity & Hplaces & Hvalid) Hsome Horder Hnone.
  unfold generatePlaces. cbv zeta. rewrite Htruncated.
  unfold afterCleaning. rewrite Hparse. cbn [mbind Result_bind].
  rewrite Hcity, Hplaces, Hvalid.
  rewrite verifyAllPlaces_batch. cbn [mbind Result_bind].
  fold (verifiedStops city mentions search).
  destruct (length (verifiedStops city mentions search) =? 0) eqn:Hzero.
  { apply Nat.eqb_eq in Hzero.
    by destruct (verifiedStops city mentions search). }
  rewrite Horder. unfold linkOfOptimized.
  destruct (mapM (fun place : option Stop => place) places) as [stops|]
    eqn:Hstops; [|done].
  apply mapM_Some in Hstops.
  apply list_elem_of_lookup in Hnone as [k Hk].
  destruct (Forall2_lookup_l _ _ _ _ _ Hstops Hk) as (stop & _ & Habsurd).
  done.
Qed.

End PipelineFacts.

Lemma verifiedStops_verified (city : string) (mentions : list LlmPlace)
  (search : nat -> SearchResponse) (stop : Stop) :
  stop ∈ verifiedStops city mentions search -> isVerified stop = true.
Proof.
  unfold verifiedStops. intros Hin.
  apply list_elem_of_In, filter_In in Hin. by destruct Hin.
Qed.

Lemma sliceInner_elem_of {A : Type} (xs : list A) (index : nat) (x : A) :
  sliceInner xs !! index = Some x -> x ∈ xs.
Proof.
  intros Hx%list_elem_of_lookup_2. unfold sliceInner in Hx.
  by apply subseteq_drop, subseteq_take in Hx.
Qed.

(** The stops of an optimized order are stops of the input that have an
    identifier. *)
Lemma optimized_stops_of_input (places : list Stop) (travelMode : string)
  (response : RoutesResponse) (result : list (option Stop))
  (order : list nat) (stop : Stop) :
  optimizeRouteOrder places travelMode response = Optimized result order ->
  Some stop ∈ result ->
  stop ∈ places /\ hasPlaceId stop = true.
Proof.
  intros Hr Hin.
  pose proof (optimizeRouteOrder_cases places travelMode response) as H.
  simpl in H.
  destruct (indexAnswer response) as [order'|];
    [|destruct H as (? & ? & ? & H & _); congruence].
  destruct (length (List.filter hasPlaceId places) <? 3);
    [destruct H as (? & ? & ? & H & _); congruence|].
  rewrite H in Hr. injection Hr as <- <-.
  assert (stop ∈ List.filter hasPlaceId places) as Hstop.
  { apply elem_of_cons in Hin as [Hin|Hin];
      [by eapply list_elem_of_lookup_2|].
    apply elem_of_app in Hin as [Hin|Hin].
    - apply list_elem_of_fmap in Hin as (index & Hindex & _).
      by eapply sliceInner_elem_of.
    - apply list_elem_of_singleton in Hin. by eapply list_elem_of_lookup_2. }
  apply list_elem_of_In, filter_In in Hstop as [Hstop Hid].
  split; [by apply list_elem_of_In | done].
Qed.

(** X17. A request answered with status 200 had an input that is not
    blank and has at most 500 units.  Its data names a city and holds at
    least one place; every place it holds was verified by the search,
    and it carries a link.  The payload for the routing service is
    computed from these places. *)
Theorem X17_success_holds_verified_places (numberToString : Q -> string)
  (parseJson : string -> Result GeminiJson.t) (now : string)
  (body : RequestBody) (gemini : string -> GeminiOutcome)
  (search : nat -> SearchResponse) (routes : RoutesResponse) :
  statusOf (POST numberToString parseJson now body gemini search routes)
  = 200 ->
  exists input data payload optimization message,
    POST numberToString parseJson now body gemini search routes
    = Succeeded data payload optimization message
    /\ body = Body (Some input)
    /\ trim input <> ""
    /\ String.length input <= 500
    /\ FinalResponse.city data <> ""
    /\ FinalResponse.places data <> []
    /\ Forall (fun place => isVerified place = true)
         (FinalResponse.places data)
    /\ is_Some (FinalResponse.google_maps_url data)
    /\ payload
       = convertToGoogleRoutesFormat now (FinalResponse.places data)
           (FinalResponse.route_preferences data).
Proof.
  unfold POST. destruct body as [message|userInput]; [done|].
  destruct (stringOrNull userInput) as [input|] eqn:Hinput; [|done].
  destruct (String.length (trim input) =? 0) eqn:Hblank; [done|].
  destruct (500 <? String.length input) eqn:Hlong; [done|].
  destruct (generatePlaces numberToString parseJson now (gemini input)
              search routes)
    as [error raw|data payload verification optimization] eqn:Hgenerate;
    [done|].
  intros _. exists input, data, payload, optimization. eexists.
  split; [reflexivity|].
  assert (userInput = Some input) as ->.
  { unfold stringOrNull in Hinput. destruct userInput as [s|]; [|done].
    destruct (truthy s); congruence. }
  split; [done|].
  split; [intros Hempty; by rewrite Hempty in Hblank|].
  split; [by apply Nat.ltb_ge in Hlong|].
  apply generatePlaces_success_inv in Hgenerate
    as (text & jsonResponse & city & mentions & Htext & Haccepted & Hsome
        & -> & -> & Hcity & Hconverted & Hshape).
  destruct Haccepted as (_ & _ & Hnamed & _ & _).
  split.
  { rewrite Hcity. unfold stringOrNull in Hnamed.
    destruct (GeminiJson.city jsonResponse) as [s|]; [|done].
    destruct (truthy s) eqn:Hs; [|done]. injection Hnamed as <-.
    by destruct s. }
  destruct (optimizeRouteOrder (verifiedStops city mentions search)
              (travelModeOf (GeminiJson.route_preferences jsonResponse))
              routes) as [kept error message|places order] eqn:Horder.
  - destruct Hshape as (Hplaces & _ & Hurl). rewrite Hurl, Hplaces.
    split; [done|]. split.
    { apply Forall_forall. intros stop. apply verifiedStops_verified. }
    split; [|by rewrite <- Hplaces].
    unfold generateGoogleMapsUrl, mapsUrl.
    destruct (verifiedStops city mentions search) as [|origin rest];
      [done|].
    cbv zeta. match goal with
    | |- context [2048 <? ?n] => destruct (2048 <? n); eauto
    end.
  - destruct Hshape as (Hstops & Hurl).
    apply mapM_Some in Hstops.
    assert (FinalResponse.places data <> []) as Hnonempty.
    { pose proof (optimizeRouteOrder_cases
                    (verifiedStops city mentions search)
                    (travelModeOf (GeminiJson.route_preferences jsonResponse))
                    routes) as H.
      simpl in H. rewrite Horder in H.
      destruct (indexAnswer routes);
        [|destruct H as (? & ? & ? & H & _); congruence].
      destruct (length _ <? 3);
        [destruct H as (? & ? & ? & H & _); congruence|].
      injection H as -> _. inversion Hstops. done. }
    split; [done|]. split.
    { apply Forall_forall. intros stop Hstop.
      apply list_elem_of_lookup in Hstop as [k Hk].
      destruct (Forall2_lookup_r _ _ _ _ _ Hstops Hk) as (entry & Hentry & ->).
      apply list_elem_of_lookup_2 in Hentry.
      destruct (optimized_stops_of_input _ _ _ _ _ _ Horder Hentry)
        as [Hin _].
      by apply (verifiedStops_verified city mentions search). }
    split; [|done].
    rewrite Hurl. unfold generateOptimizedMapsUrl, mapsUrl.
    destruct (FinalResponse.places data) as [|origin rest]; [done|].
    cbv zeta. match goal with
    | |- context [2048 <? ?n] => destruct (2048 <? n); eauto
    end.
Qed.

Lemma X17_success_witness :
  exists data payload optimization message,
    POST LinkSamples.showInteger RequestSamples.parse RequestSamples.instant
      (Body (Some "a day in Porto")) RequestSamples.model
      BatchSamples.search (RoutesThrown "unreachable")
    = Succeeded data payload optimization message
    /\ length (FinalResponse.places data) = 1
    /\ Forall (fun place => isVerified place = true)
         (FinalResponse.places data).
Proof.
  destruct (X17_success_holds_verified_places LinkSamples.showInteger
              RequestSamples.parse RequestSamples.instant
              (Body (Some "a day in Porto")) RequestSamples.model
              BatchSamples.search (RoutesThrown "unreachable"))
    as (input & data & payload & optimization & message & Hpost & _ & _ & _
        & _ & _ & Hverified & _);
    [vm_compute; reflexivity|].
  exists data, payload, optimization, message.
  split; [exact Hpost|]. split; [|exact Hverified].
  vm_compute in Hpost. injection Hpost as <- _ _ _. reflexivity.
Defined.

Lemma no_index_answer_unoptimized (places : list Stop)
  (travelMode : string) (response : RoutesResponse) :
  indexAnswer response = None ->
  optimized (optimizeRouteOrder places travelMode response) = false.
Proof.
  intros Hnone.
  pose proof (optimizeRouteOrder_cases places travelMode response) as H.
  simpl in H. rewrite Hnone in H. by destruct H as (? & ? & ? & -> & _).
Qed.

(** X18. The routing service cannot make a request fail by failing
    itself: if a request succeeds with some answer of the routing
    service, it succeeds with every answer that carries no index list,
    an exception and an error status among them, with the same
    verification; its places are then the verified places of the batch,
    in the order of the mentions, and it reports no optimization. *)
Theorem X18_routing_failure_is_not_fatal (numberToString : Q -> string)
  (parseJson : string -> Result GeminiJson.t) (now : string)
  (gemini : GeminiOutcome) (search : nat -> SearchResponse)
  (routes routes' : RoutesResponse) (data : FinalResponse.t)
  (payload : option RoutesPayload.t) (verification : BatchResult)
  (optimization : OptimizeResult) :
  generatePlaces numberToString parseJson now gemini search routes
  = GenerateSuccess data payload verification optimization ->
  indexAnswer routes' = None ->
  exists data' payload' optimization' results summary enhanced,
    generatePlaces numberToString parseJson now gemini search routes'
    = GenerateSuccess data' payload' verification optimization'
    /\ optimized optimization' = false
    /\ verification = BatchSuccess results summary enhanced
    /\ FinalResponse.places data' = List.filter isVerified enhanced
    /\ FinalResponse.optimization data' = None.
Proof.
  intros Hsuccess Hnone.
  apply generatePlaces_success_inv in Hsuccess
    as (text & jsonResponse & city & mentions & -> & Haccepted & Hsome
        & -> & _).
  destruct (generatePlaces_unoptimized numberToString parseJson now text
              jsonResponse city mentions search routes' Haccepted Hsome)
    as (data' & payload' & Hrun & Hplaces & Hoptimization);
    [by apply no_index_answer_unoptimized|].
  eexists data', payload', _, _, _, _. split; [exact Hrun|].
  split; [by apply no_index_answer_unoptimized|].
  split; [reflexivity|]. split; [exact Hplaces | exact Hoptimization].
Qed.

Lemma X18_routing_failure_witness :
  exists data payload verification optimization,
    generatePlaces LinkSamples.showInteger RequestSamples.parse
      RequestSamples.instant (GeminiText RequestSamples.answerText)
      RequestSamples.found (RoutesHttpError 503 "unavailable")
    = GenerateSuccess data payload verification optimization
    /\ length (FinalResponse.places data) = 3.
Proof.
  destruct (generatePlaces LinkSamples.showInteger RequestSamples.parse
              RequestSamples.instant (GeminiText RequestSamples.answerText)
              RequestSamples.found (RouteSamples.answer [0]))
    as [error raw|data payload verification optimization] eqn:Hfirst;
    [vm_compute in Hfirst; discriminate Hfirst|].
  destruct (X18_routing_failure_is_not_fatal _ _ _ _ _ _
              (RoutesHttpError 503 "unavailable") _ _ _ _ Hfirst eq_refl)
    as (data' & payload' & optimization' & results & summary & enhanced
        & Hrun & _).
  exists data', payload', verification, optimization'.
  split; [exact Hrun|].
  vm_compute in Hrun. injection Hrun as <- _ _ _. reflexivity.
Defined.

(** X19. An index of the routing service that is not a position of the
    intermediates makes the whole request fail, and the failure is
    reported as an invalid answer of the language model, with the text
    of the model attached: the stop read at that index is [undefined],
    and the link generator raises on it inside the block that guards
    the parsing.  The same request succeeds when the routing service
    cannot be reached. *)
Theorem X19_index_out_of_range_fails_request (numberToString : Q -> string)
  (parseJson : string -> Result GeminiJson.t) (now : string)
  (text message : string) (search : nat -> SearchResponse)
  (routes : RoutesResponse) (data : FinalResponse.t)
  (payload : option RoutesPayload.t) (verification : BatchResult)
  (optimization : OptimizeResult) (order : list nat) (index : nat) :
  generatePlaces numberToString parseJson now (GeminiText text) search
    (RoutesThrown message)
  = GenerateSuccess data payload verification optimization ->
  3 <= length (List.filter hasPlaceId (FinalResponse.places data)) ->
  indexAnswer routes = Some order ->
  index ∈ order ->
  length (List.filter hasPlaceId (FinalResponse.places data)) - 2 <= index ->
  exists reason,
    generatePlaces numberToString parseJson now (GeminiText text) search
      routes
    = GenerateFailure ("Invalid JSON response from AI: " +:+ reason)
        (Some text).
Proof.
  intros Hsuccess Hthree Hanswer Hindex Hrange.
  apply generatePlaces_success_inv in Hsuccess
    as (text' & jsonResponse & city & mentions & [= <-] & Haccepted & Hsome
        & -> & -> & _ & _ & Hshape).
  pose proof (no_index_answer_unoptimized
                (verifiedStops city mentions search)
                (travelModeOf (GeminiJson.route_preferences jsonResponse))
                (RoutesThrown message) eq_refl) as Hfallback.
  destruct (optimizeRouteOrder (verifiedStops city mentions search)
              (travelModeOf (GeminiJson.route_preferences jsonResponse))
              (RoutesThrown message)) as [kept error note|? ?]; [|done].
  destruct Hshape as (Hplaces & _). rewrite Hplaces in Hthree, Hrange.
  pose proof (optimizeRouteOrder_cases
                (verifiedStops city mentions search)
                (travelModeOf (GeminiJson.route_preferences jsonResponse))
                routes) as Hcases.
  simpl in Hcases. rewrite Hanswer in Hcases.
  destruct (length (List.filter hasPlaceId
                      (verifiedStops city mentions search)) <? 3) eqn:Hfew;
    [apply Nat.ltb_lt in Hfew; lia|].
  exists readingAddressOfUndefined.
  eapply generatePlaces_undefined_stop; [done | done | exact Hcases|].
  apply elem_of_cons. right. apply elem_of_app. left.
  apply list_elem_of_fmap. exists index. split; [|done].
  symmetry. apply lookup_ge_None. unfold sliceInner.
  rewrite length_drop, length_take. lia.
Qed.

Lemma X19_index_out_of_range_witness :
  exists reason,
    generatePlaces LinkSamples.showInteger RequestSamples.parse
      RequestSamples.instant (GeminiText RequestSamples.answerText)
      RequestSamples.found (RouteSamples.answer [1])
    = GenerateFailure ("Invalid JSON response from AI: " +:+ reason)
        (Some RequestSamples.answerText).
Proof.
  destruct (generatePlaces LinkSamples.showInteger RequestSamples.parse
              RequestSamples.instant (GeminiText RequestSamples.answerText)
              RequestSamples.found (RoutesThrown "unreachable"))
    as [error raw|data payload verification optimization] eqn:Hfirst;
    [vm_compute in Hfirst; discriminate Hfirst|].
  apply (X19_index_out_of_range_fails_request _ _ _ _ "unreachable" _
           (RouteSamples.answer [1]) data payload verification optimization
           [1] 1 Hfirst).
  - vm_compute in Hfirst. injection Hfirst as <- _ _ _. vm_compute. lia.
  - reflexivity.
  - apply list_elem_of_In. left. reflexivity.
  - vm_compute in Hfirst. injection Hfirst as <- _ _ _. vm_compute. lia.
Defined.
